(** * The MCQ exam backend (backend/app.py): schema initializer and routing table

    The development embeds the single source file of the repository:
    - the configuration read from the process environment (section 1 of app.py);
    - [get_db_connection] and [setup_database] (sections 2 and 3), run over a
      model of the psycopg2 driver talking to one PostgreSQL server;
    - the Flask route table and the thirteen view branches (section 4),
      together with the rules that the framework registers for them.

    Python code is written in a state-and-exception monad over a [world] that
    holds the process environment, the server, the driver objects and the
    standard output. *)

From Stdlib Require Import String Ascii List NArith Bool DecimalString DecimalN DecimalPos.
From stdpp Require Import base option strings gmap list.

Open Scope string_scope.
Open Scope list_scope.

(** ** Relational schema objects *)

Module Sql.

Inductive sql_type :=
| SERIAL
| INTEGER
| VARCHAR (n : N)
| TEXT
| BOOLEAN
| TIMESTAMP
| JSONB.

Inductive default_expr :=
| DInt (n : N)
| DBool (b : bool)
| CURRENT_TIMESTAMP.

(** Column constraints, as they are spelled in the CREATE TABLE commands. *)
Inductive constraint :=
| PRIMARY_KEY
| NOT_NULL
| UNIQUE
| DEFAULT (e : default_expr)
| REFERENCES_ON_DELETE_CASCADE (tbl col : string).

Record column := Column {
  col_name : string;
  col_type : sql_type;
  col_constraints : list constraint
}.

(** A stored table: its column definitions and its rows. *)
Record table := Table {
  tbl_columns : list column;
  tbl_rows : list (list string)
}.

(** [CREATE TABLE IF NOT EXISTS ct_name (ct_columns)]. *)
Record create_table := CreateTableIfNotExists {
  ct_name : string;
  ct_columns : list column
}.

Definition is_key_constraint (c : constraint) : bool :=
  match c with
  | PRIMARY_KEY | UNIQUE => true
  | _ => false
  end.

(** Family of a column type for foreign-key comparison: a SERIAL column is
    an integer column, VARCHAR and TEXT are both character data. *)
Inductive type_family := FamInt | FamChar | FamBool | FamTime | FamJson.

Definition family (t : sql_type) : type_family :=
  match t with
  | SERIAL | INTEGER => FamInt
  | VARCHAR _ | TEXT => FamChar
  | BOOLEAN => FamBool
  | TIMESTAMP => FamTime
  | JSONB => FamJson
  end.

Definition family_eqb (a b : type_family) : bool :=
  match a, b with
  | FamInt, FamInt | FamChar, FamChar | FamBool, FamBool
  | FamTime, FamTime | FamJson, FamJson => true
  | _, _ => false
  end.

Definition find_column (name : string) (cols : list column) : option column :=
  List.find (fun c => String.eqb (col_name c) name) cols.

Definition column_names (cols : list column) : list string :=
  List.map col_name cols.

End Sql.

(** ** The world the program runs in *)

Module Py.

Import Sql.

(** Python exception classes that the driver raises; all derive from
    [Exception], the four driver classes also from [psycopg2.DatabaseError]
    or its sibling [InterfaceError]. *)
Inductive exn_class :=
| TypeError
| OperationalError
| ProgrammingError
| InternalError
| InterfaceError.

Record exn := Exn { exn_cls : exn_class; exn_msg : string }.

Definition is_Exception (e : exn) : bool := true.

Definition is_DatabaseError (e : exn) : bool :=
  match exn_cls e with
  | OperationalError | ProgrammingError | InternalError => true
  | TypeError | InterfaceError => false
  end.

(** State of a transaction on a connection (autocommit is off, the driver's
    default): no transaction, one in progress, or one aborted by an error. *)
Inductive tx_status := TxIdle | TxActive | TxAborted.

Record connection := Connection {
  conn_closed : bool;
  conn_status : tx_status;
  conn_pending : gmap string table
}.

Record cursor := Cursor {
  cur_conn : nat;
  cur_closed : bool
}.

(** What the server received on the wire, in order. *)
Inductive pq_message :=
| PqStartup (dsn : string)
| PqBegin
| PqQuery (q : create_table)
| PqCommit
| PqTerminate.

Record world := World {
  environ : gmap string string;      (* os.environ *)
  dotenv_file : gmap string string;  (* the pairs of the local .env file *)
  pg_accepts : string -> bool;       (* does a server answer at this connection string *)
  pg_catalog : gmap string table;    (* committed tables of the server *)
  pg_received : list pq_message;
  connections : list connection;     (* driver connection objects *)
  cursors : list cursor;             (* driver cursor objects *)
  stdout : list string               (* lines printed so far *)
}.

Definition with_environ (f : gmap string string -> gmap string string) (w : world) : world :=
  World (f (environ w)) (dotenv_file w) (pg_accepts w) (pg_catalog w)
        (pg_received w) (connections w) (cursors w) (stdout w).

Definition with_catalog (f : gmap string table -> gmap string table) (w : world) : world :=
  World (environ w) (dotenv_file w) (pg_accepts w) (f (pg_catalog w))
        (pg_received w) (connections w) (cursors w) (stdout w).

Definition with_received (f : list pq_message -> list pq_message) (w : world) : world :=
  World (environ w) (dotenv_file w) (pg_accepts w) (pg_catalog w)
        (f (pg_received w)) (connections w) (cursors w) (stdout w).

Definition with_connections (f : list connection -> list connection) (w : world) : world :=
  World (environ w) (dotenv_file w) (pg_accepts w) (pg_catalog w)
        (pg_received w) (f (connections w)) (cursors w) (stdout w).

Definition with_cursors (f : list cursor -> list cursor) (w : world) : world :=
  World (environ w) (dotenv_file w) (pg_accepts w) (pg_catalog w)
        (pg_received w) (connections w) (f (cursors w)) (stdout w).

Definition with_stdout (f : list string -> list string) (w : world) : world :=
  World (environ w) (dotenv_file w) (pg_accepts w) (pg_catalog w)
        (pg_received w) (connections w) (cursors w) (f (stdout w)).

(** A Python computation: it reads and writes the world and either returns
    a value or raises. State changes made before a raise stay. *)
Inductive outcome (A : Type) :=
| Val (a : A)
| Exc (e : exn).

Arguments Val {A} a.
Arguments Exc {A} e.

Definition M (A : Type) : Type := world -> outcome A * world.

Definition ret {A} (a : A) : M A := fun w => (Val a, w).

Definition bind {A B} (m : M A) (k : A -> M B) : M B :=
  fun w => match m w with
           | (Val a, w') => k a w'
           | (Exc e, w') => (Exc e, w')
           end.

Definition raise {A} (e : exn) : M A := fun w => (Exc e, w).

Definition modify (f : world -> world) : M unit := fun w => (Val tt, f w).

Definition gets {A} (f : world -> A) : M A := fun w => (Val (f w), w).

Declare Scope py_scope.
Delimit Scope py_scope with py.
Notation "x <- c1 ;; c2" := (bind c1 (fun x => c2))
  (at level 100, c1 at next level, right associativity) : py_scope.
Notation "c1 ;; c2" := (bind c1 (fun _ => c2))
  (at level 100, right associativity) : py_scope.

(** [try: body except (classes) as e: handler e]. *)
Definition try_except {A} (body : M A) (catches : exn -> bool) (handler : exn -> M A) : M A :=
  fun w => match body w with
           | (Val a, w') => (Val a, w')
           | (Exc e, w') => if catches e then handler e w' else (Exc e, w')
           end.

(** [try: body finally: fin]: [fin] always runs; if it raises, its exception
    replaces the outcome of [body]. *)
Definition try_finally {A} (body : M A) (fin : M unit) : M A :=
  fun w => match body w with
           | (r, w') =>
               match fin w' with
               | (Val _, w'') => (r, w'')
               | (Exc e, w'') => (Exc e, w'')
               end
           end.

(** [for x in xs: body x]. *)
Fixpoint for_each {A} (xs : list A) (body : A -> M unit) : M unit :=
  match xs with
  | [] => ret tt
  | x :: xs' => bind (body x) (fun _ => for_each xs' body)
  end.

(** [print(line)]. *)
Definition print (line : string) : M unit :=
  modify (with_stdout (fun out => out ++ [line])).

(** [os.environ.get(key)] and [os.environ.get(key, default)]. *)
Definition environ_get (key : string) : M (option string) :=
  gets (fun w => environ w !! key).

Definition environ_get_default (key dflt : string) : M string :=
  gets (fun w => default dflt (environ w !! key)).

(** [load_dotenv()]: the pairs of the .env file are added to the process
    environment; a variable that is already set keeps its value. *)
Definition load_dotenv : M unit :=
  modify (fun w => with_environ (fun env => env ∪ dotenv_file w) w).

End Py.

(** ** The PostgreSQL server and the psycopg2 driver

    One client is modelled. Data definition is transactional: a statement
    changes the pending catalog of the connection's transaction, [commit]
    publishes it, and an error aborts the transaction, after which the server
    answers COMMIT with a rollback. *)

Module Pg.

Import Sql Py.

Inductive sql_error :=
| UndefinedTable (t : string)
| UndefinedColumn (t c : string)
| InvalidForeignKey (t c : string)
| DatatypeMismatch (c : string).

(** The text that goes with an error. The program only prints it; the
    server's own wording is not reproduced. *)
Definition sql_error_message (err : sql_error) : string :=
  match err with
  | UndefinedTable t => "relation " +:+ t +:+ " does not exist"
  | UndefinedColumn t c =>
      "column " +:+ c +:+ " referenced in foreign key constraint does not exist"
  | InvalidForeignKey t c =>
      "there is no unique constraint matching given keys for referenced table " +:+ t
  | DatatypeMismatch c =>
      "foreign key constraint on " +:+ c +:+ " cannot be implemented"
  end.

(** A REFERENCES constraint needs the referenced table, the referenced
    column, a key on that column and comparable types. *)
Definition check_constraint (cat : gmap string table) (col : column) (c : constraint)
  : option sql_error :=
  match c with
  | REFERENCES_ON_DELETE_CASCADE t rc =>
      match cat !! t with
      | None => Some (UndefinedTable t)
      | Some tb =>
          match find_column rc (tbl_columns tb) with
          | None => Some (UndefinedColumn t rc)
          | Some target =>
              if negb (existsb is_key_constraint (col_constraints target))
              then Some (InvalidForeignKey t rc)
              else if family_eqb (family (col_type col)) (family (col_type target))
                   then None
                   else Some (DatatypeMismatch (col_name col))
          end
      end
  | _ => None
  end.

Fixpoint first_error {A} (check : A -> option sql_error) (xs : list A) : option sql_error :=
  match xs with
  | [] => None
  | x :: xs' =>
      match check x with
      | Some err => Some err
      | None => first_error check xs'
      end
  end.

Definition check_column (cat : gmap string table) (col : column) : option sql_error :=
  first_error (check_constraint cat col) (col_constraints col).

(** The server's answer to one CREATE TABLE IF NOT EXISTS on catalog [cat]:
    an existing relation of that name is left as it is (with a notice). *)
Definition run_create (q : create_table) (cat : gmap string table)
  : sql_error + gmap string table :=
  match cat !! ct_name q with
  | Some _ => inr cat
  | None =>
      match first_error (check_column cat) (ct_columns q) with
      | Some err => inl err
      | None => inr (<[ct_name q := Table (ct_columns q) []]> cat)
      end
  end.

(** Driver objects are addressed by their index in the world's stores. *)
Definition the_connection (h : nat) : M connection :=
  fun w => match connections w !! h with
           | Some c => (Val c, w)
           | None => (Exc (Exn InterfaceError "no such connection"), w)
           end.

Definition the_cursor (k : nat) : M cursor :=
  fun w => match cursors w !! k with
           | Some c => (Val c, w)
           | None => (Exc (Exn InterfaceError "no such cursor"), w)
           end.

Definition set_connection (h : nat) (c : connection) : M unit :=
  modify (with_connections (fun cs => <[h := c]> cs)).

Definition set_cursor (k : nat) (c : cursor) : M unit :=
  modify (with_cursors (fun cs => <[k := c]> cs)).

Definition send (m : pq_message) : M unit :=
  modify (with_received (fun ms => ms ++ [m])).

(** The connection string that the driver hands to the client library:
    [connect(None)] is [connect] without parameters, for which the driver
    (psycopg2 2.9) builds the empty string, and the client library then
    falls back on its defaults (the PG* variables, the local socket). *)
Definition conninfo (dsn : option string) : string := default "" dsn.

(** [psycopg2.connect(dsn)]: whether a server answers is decided by the
    connection string alone, the empty one included. *)
Definition connect (dsn : option string) : M nat :=
  let d := conninfo dsn in
  (reachable <- gets (fun w => pg_accepts w d) ;;
   if reachable : bool
   then (h <- gets (fun w => length (connections w)) ;;
         modify (with_connections (fun cs => cs ++ [Connection false TxIdle ∅])) ;;
         send (PqStartup d) ;;
         ret h)
   else raise (Exn OperationalError ("could not connect to server at " +:+ d)))%py.

(** [conn.cursor()]. *)
Definition conn_cursor (h : nat) : M nat :=
  (c <- the_connection h ;;
   if conn_closed c
   then raise (Exn InterfaceError "connection already closed")
   else (k <- gets (fun w => length (cursors w)) ;;
         modify (with_cursors (fun cs => cs ++ [Cursor h false])) ;;
         ret k))%py.

(** [cur.execute(command)]. The first statement on an idle connection opens
    a transaction on the committed catalog. *)
Definition cursor_execute (k : nat) (q : create_table) : M unit :=
  (cur <- the_cursor k ;;
   if cur_closed cur
   then raise (Exn InterfaceError "cursor already closed")
   else
     (c <- the_connection (cur_conn cur) ;;
      if conn_closed c
      then raise (Exn InterfaceError "connection already closed")
      else
        match conn_status c with
        | TxAborted =>
            send (PqQuery q) ;;
            raise (Exn InternalError "current transaction is aborted")
        | st =>
            (pending <- match st with
                        | TxIdle => send PqBegin ;; gets pg_catalog
                        | _ => ret (conn_pending c)
                        end ;;
             send (PqQuery q) ;;
             match run_create q pending with
             | inr pending' =>
                 set_connection (cur_conn cur) (Connection false TxActive pending')
             | inl err =>
                 set_connection (cur_conn cur) (Connection false TxAborted pending) ;;
                 raise (Exn ProgrammingError (sql_error_message err))
             end)
        end))%py.

(** [cur.close()]. *)
Definition cursor_close (k : nat) : M unit :=
  (cur <- the_cursor k ;;
   set_cursor k (Cursor (cur_conn cur) true))%py.

(** [conn.commit()]: publishes the pending catalog of an active transaction;
    for an aborted transaction the server rolls back instead. *)
Definition conn_commit (h : nat) : M unit :=
  (c <- the_connection h ;;
   if conn_closed c
   then raise (Exn InterfaceError "connection already closed")
   else
     match conn_status c with
     | TxIdle => ret tt
     | TxActive =>
         send PqCommit ;;
         modify (with_catalog (fun _ => conn_pending c)) ;;
         set_connection h (Connection false TxIdle ∅)
     | TxAborted =>
         send PqCommit ;;
         set_connection h (Connection false TxIdle ∅)
     end)%py.

(** [conn.close()]: work that was not committed is discarded. *)
Definition conn_close (h : nat) : M unit :=
  (c <- the_connection h ;;
   if conn_closed c
   then ret tt
   else (send PqTerminate ;;
         set_connection h (Connection true TxIdle ∅)))%py.

(** The catalog after a list of statements run in one transaction, and the
    first error if one of them fails (the statements after it are not run). *)
Fixpoint run_all (qs : list create_table) (cat : gmap string table)
  : gmap string table * option sql_error :=
  match qs with
  | [] => (cat, None)
  | q :: qs' =>
      match run_create q cat with
      | inr cat' => run_all qs' cat'
      | inl err => (cat, Some err)
      end
  end.

End Pg.

(** ** app.py *)

Module App.

Import Sql Py Pg.

(** *** 1-2. Configuration *)

Record config := Config {
  SECRET_KEY : string;            (* app.config['SECRET_KEY'] *)
  DATABASE_URL : option string    (* None when the variable is not set *)
}.

Definition default_secret_key : string := "your-default-secret-key".

Definition configure : M config :=
  (load_dotenv ;;
   secret <- environ_get_default "SECRET_KEY" default_secret_key ;;
   url <- environ_get "DATABASE_URL" ;;
   ret (Config secret url))%py.

Definition get_db_connection (DATABASE_URL : option string) : M (option nat) :=
  try_except
    (conn <- connect DATABASE_URL ;; ret (Some conn))%py
    is_Exception
    (fun e => print ("Database connection error: " +:+ exn_msg e) ;; ret None)%py.

(** *** 3. Table creation *)

Definition create_users : create_table :=
  CreateTableIfNotExists "users"
    [ Column "id" SERIAL [PRIMARY_KEY];
      Column "name" (VARCHAR 100) [NOT_NULL];
      Column "phone" (VARCHAR 11) [UNIQUE; NOT_NULL];
      Column "password_hash" (VARCHAR 255) [NOT_NULL];
      Column "school" (VARCHAR 100) [];
      Column "points" INTEGER [DEFAULT (DInt 0)];
      Column "level" INTEGER [DEFAULT (DInt 1)];
      Column "created_at" TIMESTAMP [DEFAULT CURRENT_TIMESTAMP] ].

Definition create_question_sets : create_table :=
  CreateTableIfNotExists "question_sets"
    [ Column "id" SERIAL [PRIMARY_KEY];
      Column "name" (VARCHAR 255) [NOT_NULL];
      Column "category" (VARCHAR 50) [NOT_NULL];
      Column "is_active" BOOLEAN [DEFAULT (DBool false)];
      Column "exam_time_minutes" INTEGER [DEFAULT (DInt 30)];
      Column "created_at" TIMESTAMP [DEFAULT CURRENT_TIMESTAMP] ].

Definition create_questions : create_table :=
  CreateTableIfNotExists "questions"
    [ Column "id" SERIAL [PRIMARY_KEY];
      Column "set_id" INTEGER [REFERENCES_ON_DELETE_CASCADE "question_sets" "id"];
      Column "question_text" TEXT [NOT_NULL];
      Column "options" JSONB [NOT_NULL];
      Column "correct_option" (VARCHAR 255) [NOT_NULL] ].

Definition create_results : create_table :=
  CreateTableIfNotExists "results"
    [ Column "id" SERIAL [PRIMARY_KEY];
      Column "user_id" INTEGER [REFERENCES_ON_DELETE_CASCADE "users" "id"];
      Column "set_id" INTEGER [REFERENCES_ON_DELETE_CASCADE "question_sets" "id"];
      Column "score" INTEGER [NOT_NULL];
      Column "total_marks" INTEGER [NOT_NULL];
      Column "submitted_at" TIMESTAMP [DEFAULT CURRENT_TIMESTAMP] ].

Definition commands : list create_table :=
  [create_users; create_question_sets; create_questions; create_results].

Definition setup_database (DATABASE_URL : option string) : M unit :=
  (conn <- get_db_connection DATABASE_URL ;;
   match conn with
   | None => print "Could not connect to the database. Aborting setup."
   | Some conn =>
       (cur <- conn_cursor conn ;;
        try_finally
          (try_except
             (for_each commands (fun command => cursor_execute cur command) ;;
              print "Tables created or already exist.")
             (fun e => is_Exception e || is_DatabaseError e)
             (fun error => print ("Error during table creation: " +:+ exn_msg error)))
          (cursor_close cur ;;
           conn_commit conn ;;
           conn_close conn))
   end)%py.

(** *** 4. API endpoints *)

Record request := Request {
  method : string;
  path : string;
  query_args : list (string * string);
  headers : list (string * string);
  data : string
}.

#[warnings="-register-all"]
Inductive json :=
| JString (s : string)
| JObject (members : list (string * json)).

(** [jsonify(d)] for a dict of strings. *)
Definition jsonify (d : list (string * string)) : json :=
  JObject (List.map (fun kv => (fst kv, JString (snd kv))) d).

(** What a view function returns: a response object, a pair of a response
    object and a status code, or nothing when it falls off its end. *)
Inductive view_rv :=
| RvNone
| RvBody (body : json)
| RvBodyStatus (body : json) (status : nat).

(** [str(n)] for a non-negative int. *)
Definition str (n : N) : string := NilZero.string_of_uint (N.to_uint n).

Definition index (request : request) : M view_rv :=
  ret (RvBody (jsonify [("message", "Welcome to the Python MCQ Exam API!")])).

Definition signup (request : request) : M view_rv :=
  ret (RvBodyStatus (jsonify [("message", "Signup endpoint not implemented yet.")]) 501).

Definition login (request : request) : M view_rv :=
  ret (RvBodyStatus (jsonify [("message", "Login endpoint not implemented yet.")]) 501).

Definition get_live_exam (request : request) : M view_rv :=
  ret (RvBodyStatus (jsonify [("message", "Get live exam endpoint not implemented yet.")]) 501).

Definition submit_exam (request : request) : M view_rv :=
  ret (RvBodyStatus (jsonify [("message", "Submit exam endpoint not implemented yet.")]) 501).

Definition manage_question_sets (request : request) : M view_rv :=
  if String.eqb (method request) "POST"
  then ret (RvBodyStatus (jsonify [("message", "Create question set not implemented.")]) 501)
  else if String.eqb (method request) "GET"
  then ret (RvBodyStatus (jsonify [("message", "Get all question sets not implemented.")]) 501)
  else ret RvNone.

Definition manage_single_question_set (request : request) (set_id : N) : M view_rv :=
  if String.eqb (method request) "DELETE"
  then ret (RvBodyStatus
              (jsonify [("message", "Delete set " +:+ str set_id +:+ " not implemented.")]) 501)
  else if String.eqb (method request) "PUT"
  then ret (RvBodyStatus
              (jsonify [("message", "Update set " +:+ str set_id +:+ " not implemented.")]) 501)
  else ret RvNone.

Definition add_question (request : request) : M view_rv :=
  ret (RvBodyStatus (jsonify [("message", "Add question endpoint not implemented.")]) 501).

Definition get_all_results (request : request) : M view_rv :=
  ret (RvBodyStatus (jsonify [("message", "Get all results endpoint not implemented.")]) 501).

Definition get_leaderboard (request : request) : M view_rv :=
  ret (RvBodyStatus (jsonify [("message", "Leaderboard endpoint not implemented.")]) 501).

Definition get_my_results (request : request) : M view_rv :=
  ret (RvBodyStatus (jsonify [("message", "My results endpoint not implemented.")]) 501).

(** *** The route table built by the [@app.route] decorators *)

Inductive endpoint :=
| Ep_index
| Ep_signup
| Ep_login
| Ep_get_live_exam
| Ep_submit_exam
| Ep_manage_question_sets
| Ep_manage_single_question_set
| Ep_add_question
| Ep_get_all_results
| Ep_get_leaderboard
| Ep_get_my_results.

(** A rule is a fixed path, or a fixed prefix followed by one [<int:arg>]
    converter (one or more decimal digits). *)
Inductive rule_path :=
| Static (p : string)
| IntArg (prefix arg : string).

Record rule := Rule {
  rule_pattern : rule_path;
  rule_methods : list string;
  rule_endpoint : endpoint
}.

(** The rules with the method lists that the decorators declare;
    [@app.route(path)] alone declares the method list [GET]. What the
    framework makes of them when it registers them (HEAD where GET is
    declared, OPTIONS, the rule for static files) is in module [Flask]. *)
Definition url_map : list rule :=
  [ Rule (Static "/") ["GET"] Ep_index;
    Rule (Static "/api/signup") ["POST"] Ep_signup;
    Rule (Static "/api/login") ["POST"] Ep_login;
    Rule (Static "/api/exams/live") ["GET"] Ep_get_live_exam;
    Rule (Static "/api/exams/submit") ["POST"] Ep_submit_exam;
    Rule (Static "/api/admin/question-sets") ["POST"; "GET"] Ep_manage_question_sets;
    Rule (IntArg "/api/admin/question-sets/" "set_id") ["DELETE"; "PUT"]
         Ep_manage_single_question_set;
    Rule (Static "/api/admin/questions") ["POST"] Ep_add_question;
    Rule (Static "/api/admin/results") ["GET"] Ep_get_all_results;
    Rule (Static "/api/leaderboard") ["GET"] Ep_get_leaderboard;
    Rule (Static "/api/my-results") ["GET"] Ep_get_my_results ].

Definition digit_value (c : ascii) : option N :=
  let n := N_of_ascii c in
  if (48 <=? n)%N && (n <=? 57)%N then Some (n - 48)%N else None.

Fixpoint parse_digits (s : string) (acc : N) : option N :=
  match s with
  | EmptyString => Some acc
  | String c s' =>
      match digit_value c with
      | Some d => parse_digits s' (10 * acc + d)%N
      | None => None
      end
  end.

(** The int converter: at least one digit, read in base ten. Paths are
    byte strings here and a digit is one of 0 to 9; the other decimal digits
    of Unicode, which the converter's pattern also accepts, and the
    interpreter's limit on the length of a number are outside this function
    (see [Flask.modelled]). *)
Definition parse_int (s : string) : option N :=
  match s with
  | EmptyString => None
  | _ => parse_digits s 0%N
  end.

Fixpoint strip_prefix (p s : string) : option string :=
  match p with
  | EmptyString => Some s
  | String a p' =>
      match s with
      | EmptyString => None
      | String b s' => if Ascii.eqb a b then strip_prefix p' s' else None
      end
  end.

(** [Some arg] when the path fits the rule; [arg] is the converted value of
    the rule's variable part, if it has one. *)
Definition match_path (rp : rule_path) (p : string) : option (option N) :=
  match rp with
  | Static s => if String.eqb s p then Some None else None
  | IntArg prefix _ =>
      match strip_prefix prefix p with
      | Some rest =>
          match parse_int rest with
          | Some n => Some (Some n)
          | None => None
          end
      | None => None
      end
  end.

Inductive match_result :=
| Matched (ep : endpoint) (arg : option N)
| MethodNotAllowed
| NotFound.

(** Matching against the declared rules: the first rule that fits both path
    and method wins; a path that fits some rule but with no fitting method
    is answered 405, any other 404. What the framework adds when the rules
    are registered (HEAD, OPTIONS, static files, the redirect of a path with
    doubled slashes) is in module [Flask]; a request on a method other than
    HEAD reaches a view here exactly when it does there. *)
Fixpoint match_rules (rules : list rule) (meth p : string) (path_seen : bool)
  : match_result :=
  match rules with
  | [] => if path_seen then MethodNotAllowed else NotFound
  | r :: rules' =>
      match match_path (rule_pattern r) p with
      | Some arg =>
          if existsb (String.eqb meth) (rule_methods r)
          then Matched (rule_endpoint r) arg
          else match_rules rules' meth p true
      | None => match_rules rules' meth p path_seen
      end
  end.

Definition match_request (request : request) : match_result :=
  match_rules url_map (method request) (path request) false.

(** The view function registered for the endpoint, called on the view
    arguments taken from the path. *)
Definition call_view (ep : endpoint) (arg : option N) (request : request) : M view_rv :=
  match ep with
  | Ep_index => index request
  | Ep_signup => signup request
  | Ep_login => login request
  | Ep_get_live_exam => get_live_exam request
  | Ep_submit_exam => submit_exam request
  | Ep_manage_question_sets => manage_question_sets request
  | Ep_manage_single_question_set =>
      match arg with
      | Some set_id => manage_single_question_set request set_id
      | None => raise (Exn TypeError "missing 1 required positional argument: set_id")
      end
  | Ep_add_question => add_question request
  | Ep_get_all_results => get_all_results request
  | Ep_get_leaderboard => get_leaderboard request
  | Ep_get_my_results => get_my_results request
  end.

Record response := Response {
  status : nat;
  body : option json    (* None: an error page of the framework, not JSON *)
}.

(** A response object alone has status 200; a view that returns nothing is
    a TypeError. *)
Definition make_response (rv : view_rv) : M response :=
  match rv with
  | RvNone => raise (Exn TypeError "The view function did not return a valid response")
  | RvBody b => ret (Response 200 (Some b))
  | RvBodyStatus b s => ret (Response s (Some b))
  end.

Definition handle_request (request : request) : M response :=
  match match_request request with
  | NotFound => ret (Response 404 None)
  | MethodNotAllowed => ret (Response 405 None)
  | Matched ep arg =>
      try_except
        (rv <- call_view ep arg request ;; make_response rv)%py
        is_Exception
        (fun _ => ret (Response 500 None))
  end.

Fixpoint serve (requests : list request) : M (list response) :=
  match requests with
  | [] => ret []
  | r :: rest =>
      (resp <- handle_request r ;;
       resps <- serve rest ;;
       ret (resp :: resps))%py
  end.

(** The module body: configuration, [setup_database()] once, then the
    server answers the incoming requests. *)
Definition run_module : M config :=
  (cfg <- configure ;;
   setup_database (DATABASE_URL cfg) ;;
   ret cfg)%py.

Definition run_app (requests : list request) : M (list response) :=
  (run_module ;; serve requests)%py.

(** Membership of a key in a JSON object. *)
Definition has_key (k : string) (j : json) : bool :=
  match j with
  | JObject members => existsb (fun kv => String.eqb (fst kv) k) members
  | JString _ => false
  end.

Definition get_string (k : string) (j : json) : option string :=
  match j with
  | JObject members =>
      match List.find (fun kv => String.eqb (fst kv) k) members with
      | Some (_, JString s) => Some s
      | _ => None
      end
  | JString _ => None
  end.

End App.

(** ** Closed forms of a run of [setup_database] *)

Module Run.

Import Sql Py Pg App.

(** The statements that reach the server when [qs] runs in one transaction
    on catalog [cat]: all of them up to and including the first that fails. *)
Fixpoint attempted (qs : list create_table) (cat : gmap string table) : list create_table :=
  match qs with
  | [] => []
  | q :: qs' =>
      q :: match run_create q cat with
           | inr cat' => attempted qs' cat'
           | inl _ => []
           end
  end.

(** Outcome and world after the loop over [qs] on connection [h], whose
    transaction holds the pending catalog [p]; [pre] is what precedes the
    statements on the wire. *)
Definition loop_result (w : world) (h : nat) (p : gmap string table) (pre : list pq_message)
    (qs : list create_table) : outcome unit * world :=
  match run_all qs p with
  | (p', None) =>
      (Val tt,
       with_connections (fun cs => <[h := Connection false TxActive p']> cs)
         (with_received (fun ms => ms ++ pre ++ List.map PqQuery qs) w))
  | (p', Some err) =>
      (Exc (Exn ProgrammingError (sql_error_message err)),
       with_connections (fun cs => <[h := Connection false TxAborted p']> cs)
         (with_received (fun ms => ms ++ pre ++ List.map PqQuery (attempted qs p)) w))
  end.

(** The world after [conn.commit()] on connection [h] in state [st]. *)
Definition committed (h : nat) (st : tx_status) (p : gmap string table) (w : world) : world :=
  match st with
  | TxIdle => w
  | TxActive =>
      with_connections (fun cs => <[h := Connection false TxIdle ∅]> cs)
        (with_catalog (fun _ => p) (with_received (fun ms => ms ++ [PqCommit]) w))
  | TxAborted =>
      with_connections (fun cs => <[h := Connection false TxIdle ∅]> cs)
        (with_received (fun ms => ms ++ [PqCommit]) w)
  end.

(** The world after a run of [setup_database] that connected: committed
    catalog [cat'], statements [sent], and [line] printed. *)
Definition finished (w : world) (dsn : string) (cat' : gmap string table)
    (sent : list create_table) (line : string) : world :=
  World (environ w) (dotenv_file w) (pg_accepts w) cat'
    (pg_received w ++ [PqStartup dsn] ++ [PqBegin] ++ List.map PqQuery sent
                   ++ [PqCommit] ++ [PqTerminate])
    (connections w ++ [Connection true TxIdle ∅])
    (cursors w ++ [Cursor (length (connections w)) true])
    (stdout w ++ [line]).

Definition setup_result (dsn : string) (w : world) : world :=
  match run_all commands (pg_catalog w) with
  | (cat', None) => finished w dsn cat' commands "Tables created or already exist."
  | (_, Some err) =>
      finished w dsn (pg_catalog w) (attempted commands (pg_catalog w))
        ("Error during table creation: " +:+ sql_error_message err)
  end.

(** The connection cannot be established: no server answers at the
    connection string of the configured DSN (for a DSN that is not set, at
    the defaults of the client library). *)
Definition unreachable (dsn : option string) (w : world) : Prop :=
  pg_accepts w (conninfo dsn) = false.

Definition four_tables : list string := ["users"; "question_sets"; "questions"; "results"].

(** The table a successful CREATE TABLE stores: the statement's columns and
    no rows. *)
Definition new_table (q : create_table) : table := Table (ct_columns q) [].

Definition with_four_tables (cat : gmap string table) : gmap string table :=
  <["results" := new_table create_results]>
    (<["questions" := new_table create_questions]>
       (<["question_sets" := new_table create_question_sets]>
          (<["users" := new_table create_users]> cat))).

(** Sample worlds: a process with an empty environment next to a server that
    answers at one DSN. *)
Definition sample_dsn : string := "postgresql://exam@db/mcq".

Definition world_on (cat : gmap string table) : world :=
  World ∅ ∅ (String.eqb sample_dsn) cat [] [] [] [].

(** An empty database, one that already holds the four tables, and one in
    which a foreign [question_sets] table has no [id] column. *)
Definition empty_db : world := world_on ∅.

Definition ready_db : world := world_on (with_four_tables ∅).

Definition legacy_question_sets : table :=
  Table [Column "title" TEXT [NOT_NULL]] [["algebra"]].

Definition legacy_db : world :=
  world_on (<["question_sets" := legacy_question_sets]> ∅).

(** A process whose server is down. *)
Definition offline : world :=
  World ∅ ∅ (fun _ => false) ∅ [] [] [] [].

End Run.

(** ** The specification's own tables *)

Module Spec.

Import App.

(** A path of the declared surface: literal, or a literal prefix followed by
    an integer id (the [{id}] of the surface listing). *)
Inductive path_template :=
| Exact (p : string)
| WithId (prefix : string).


(** The twelve routes listed after the root, in the order of the listing. *)
Definition non_root_routes : list (string * path_template) :=
  [ ("POST", Exact "/api/signup");
    ("POST", Exact "/api/login");
    ("GET", Exact "/api/exams/live");
    ("POST", Exact "/api/exams/submit");
    ("POST", Exact "/api/admin/question-sets");
    ("GET", Exact "/api/admin/question-sets");
    ("PUT", WithId "/api/admin/question-sets/");
    ("DELETE", WithId "/api/admin/question-sets/");
    ("POST", Exact "/api/admin/questions");
    ("GET", Exact "/api/admin/results");
    ("GET", Exact "/api/leaderboard");
    ("GET", Exact "/api/my-results") ].

Definition is_digit (c : ascii) : bool :=
  let n := N_of_ascii c in (48 <=? n)%N && (n <=? 57)%N.

Fixpoint all_digits (s : string) : bool :=
  match s with
  | EmptyString => true
  | String c s' => is_digit c && all_digits s'
  end.

Definition is_decimal (s : string) : bool :=
  match s with
  | EmptyString => false
  | _ => all_digits s
  end.

Definition fits (t : path_template) (p : string) : Prop :=
  match t with
  | Exact s => p = s
  | WithId prefix => exists id : string, p = prefix +:+ id /\ is_decimal id = true
  end.

(** A method and path are on a list of routes when some entry has that
    method and a template the path fits. *)
Definition on_routes (routes : list (string * path_template)) (meth p : string) : Prop :=
  exists entry, In entry routes /\ meth = fst entry /\ fits (snd entry) p.

Definition template_of (rp : rule_path) : path_template :=
  match rp with
  | Static s => Exact s
  | IntArg prefix _ => WithId prefix
  end.

(** The method and path pairs that a route table answers. *)
Definition routes_of (rules : list rule) : list (string * path_template) :=
  flat_map (fun r => List.map (fun m => (m, template_of (rule_pattern r))) (rule_methods r))
           rules.

(** The columns of the four entities of the data model, under the names the
    tables give them. *)
Definition documented_columns : list (string * list string) :=
  [ ("users",
     ["id"; "name"; "phone"; "password_hash"; "school"; "points"; "level"; "created_at"]);
    ("question_sets",
     ["id"; "name"; "category"; "is_active"; "exam_time_minutes"; "created_at"]);
    ("questions",
     ["id"; "set_id"; "question_text"; "options"; "correct_option"]);
    ("results",
     ["id"; "user_id"; "set_id"; "score"; "total_marks"; "submitted_at"]) ].

(** The reading of "the tables created before a failing statement are kept":
    whatever the transaction held when a statement failed is in the
    committed catalog after [setup_database]. *)
Definition partial_tables_kept : Prop :=
  forall (dsn : string) (w : Py.world) (p : gmap string Sql.table) (err : Pg.sql_error),
    Py.pg_accepts w dsn = true ->
    Pg.run_all commands (Py.pg_catalog w) = (p, Some err) ->
    forall t, is_Some (p !! t) ->
              is_Some (Py.pg_catalog (snd (setup_database (Some dsn) w)) !! t).

(** The reading of "the signing secret is supplied externally, not
    hard-coded": the configured secret is the value of the SECRET_KEY
    variable of the environment (process variables and .env file). *)
Definition secret_from_environment : Prop :=
  forall (w : Py.world) (cfg : config) (w' : Py.world),
    configure w = (Py.Val cfg, w') ->
    (Py.environ w ∪ Py.dotenv_file w) !! "SECRET_KEY" = Some (SECRET_KEY cfg).

End Spec.

(** ** Conditions on catalogs, output and paths *)

Module Cond.

Import Sql Py Pg App.

(** Can column [id] of a table be the target of an INTEGER foreign key: the
    column exists, carries a key and is of an integer type. *)
Definition key_id (tb : table) : bool :=
  match find_column "id" (tbl_columns tb) with
  | Some c =>
      existsb is_key_constraint (col_constraints c)
      && family_eqb FamInt (family (col_type c))
  | None => false
  end.

(** A table of that name is there and cannot be such a target. *)
Definition unusable (cat : gmap string table) (t : string) : Prop :=
  exists tb, cat !! t = Some tb /\ key_id tb = false.

(** The catalogs on which one of the four commands is rejected: a table
    that has to be created refers to an existing table without a usable
    [id]. *)
Definition rejecting (cat : gmap string table) : Prop :=
  (cat !! "questions" = None /\ unusable cat "question_sets")
  \/ (cat !! "results" = None
      /\ (unusable cat "users" \/ unusable cat "question_sets")).

(** The lines printed by a run from [w] to [w']. *)
Definition printed (w w' : world) : list string :=
  drop (length (stdout w)) (stdout w').

Definition success_line : string := "Tables created or already exist.".

Definition question_set_prefix : string := "/api/admin/question-sets/".

(** Text of 7-bit characters only. *)
Fixpoint is_ascii_text (s : string) : bool :=
  match s with
  | EmptyString => true
  | String c s' => (N_of_ascii c <? 128)%N && is_ascii_text s'
  end.

End Cond.

(** ** What the framework registers

    [Flask(__name__)] registers a rule for static files before any route of
    app.py, and [add_url_rule] extends the method list of every rule: a rule
    that does not name OPTIONS gets it, with an automatic answer, and a rule
    with GET gets HEAD as well. A request is handed to the target of the
    rule that fits its path and lists its method. *)

Module Flask.

Import App Spec Cond.

Inductive target :=
| ViewRule (rp : rule_path) (ep : endpoint)   (* a route of app.py *)
| StaticFiles (url_path : string).            (* url_path followed by <path:filename> *)

Record registered := Registered {
  reg_target : target;
  reg_methods : list string;
  reg_automatic_options : bool
}.

Definition has_method (m : string) (ms : list string) : bool :=
  existsb (String.eqb m) ms.

Definition add_url_rule (t : target) (methods : list string) : registered :=
  let automatic := negb (has_method "OPTIONS" methods) in
  let methods := if automatic then methods ++ ["OPTIONS"] else methods in
  let methods := if has_method "GET" methods && negb (has_method "HEAD" methods)
                 then methods ++ ["HEAD"]
                 else methods in
  Registered t methods automatic.

(** The rule of the application object itself: [static_url_path] is
    [/static], the rule is registered without a method list. *)
Definition static_rule : registered :=
  add_url_rule (StaticFiles "/static/") ["GET"].

(** [@app.route(rule, methods=...)] on a view function. *)
Definition route (r : rule) : registered :=
  add_url_rule (ViewRule (rule_pattern r) (rule_endpoint r)) (rule_methods r).

Definition registered_rules : list registered :=
  static_rule :: List.map route url_map.

(** Where a request ends up. [NoView] stands for every answer that the
    framework gives without calling anything: not found, method not
    allowed, a redirect to a path with merged slashes. [Unmodelled] is the
    answer for the paths that [modelled] leaves out. *)
Inductive served :=
| ToView (ep : endpoint) (arg : option N)
| ToStaticFile (filename : string)
| AutomaticOptions
| NoView
| Unmodelled.

Fixpoint no_newline (s : string) : bool :=
  match s with
  | EmptyString => true
  | String c s' => negb (Ascii.eqb c "010") && no_newline s'
  end.

(** What the path converter accepts: at least one character, the first one
    not a slash, no line feed after it. *)
Definition is_file_path (s : string) : bool :=
  match s with
  | EmptyString => false
  | String c s' => negb (Ascii.eqb c "/") && no_newline s'
  end.

Definition fit (t : target) (p : string) : option served :=
  match t with
  | ViewRule rp ep => option_map (ToView ep) (match_path rp p)
  | StaticFiles url_path =>
      match strip_prefix url_path p with
      | Some filename => if is_file_path filename then Some (ToStaticFile filename) else None
      | None => None
      end
  end.

Fixpoint find_rule (rules : list registered) (meth p : string) : served :=
  match rules with
  | [] => NoView
  | r :: rules' =>
      match fit (reg_target r) p with
      | Some s =>
          if has_method meth (reg_methods r)
          then if reg_automatic_options r && String.eqb meth "OPTIONS"
               then AutomaticOptions
               else s
          else find_rule rules' meth p
      | None => find_rule rules' meth p
      end
  end.

(** The paths for which the converters are modelled: 7-bit text (a digit is
    one of 0 to 9) that is short enough for the interpreter to read any
    number in it (it refuses decimal strings of more than 4300 digits). *)
Definition modelled (p : string) : bool :=
  is_ascii_text p && (N.of_nat (String.length p) <=? 4300)%N.

(** [meth] is [request.method], which the framework gives in upper case. *)
Definition dispatch_request (meth p : string) : served :=
  if modelled p then find_rule registered_rules meth p else Unmodelled.




End Flask.

(** * Properties *)

Import Sql Py Pg App Run Spec Cond Flask.

(** Nested world updates are normalised by value, so that the copies of the
    world inside an update are not unfolded again and again. *)
Ltac world_norm :=
  cbv [finished committed with_environ with_catalog with_received with_connections
       with_cursors with_stdout environ dotenv_file pg_accepts pg_catalog
       pg_received connections cursors stdout].

(** The views are unfolded together, down to the value they return. *)
Ltac unfold_views :=
  cbn [call_view];
  unfold index, signup, login, get_live_exam, submit_exam, manage_question_sets,
    manage_single_question_set, add_question, get_all_results, get_leaderboard,
    get_my_results, raise, ret.

(** ** Laws of the monad and of the exception combinators *)

Lemma bind_val {A B} (m : M A) (k : A -> M B) w a w' :
  m w = (Val a, w') -> bind m k w = k a w'.
Proof. intros H. unfold bind. by rewrite H. Qed.

Lemma bind_exc {A B} (m : M A) (k : A -> M B) w e w' :
  m w = (Exc e, w') -> bind m k w = (Exc e, w').
Proof. intros H. unfold bind. by rewrite H. Qed.

Lemma try_except_val {A} (body : M A) c hd w a w' :
  body w = (Val a, w') -> try_except body c hd w = (Val a, w').
Proof. intros H. unfold try_except. by rewrite H. Qed.

Lemma try_except_exc {A} (body : M A) c hd w e w' :
  body w = (Exc e, w') -> c e = true -> try_except body c hd w = hd e w'.
Proof. intros H Hc. unfold try_except. by rewrite H, Hc. Qed.

Lemma try_finally_val {A} (body : M A) fin w r w' w'' :
  body w = (r, w') -> fin w' = (Val tt, w'') -> try_finally body fin w = (r, w'').
Proof. intros H1 H2. unfold try_finally. by rewrite H1, H2. Qed.

(** ** The object stores *)

Lemma lookup_snoc {A} (l : list A) (x : A) : (l ++ [x]) !! length l = Some x.
Proof. by apply list_lookup_middle. Qed.

Lemma insert_snoc {A} (l : list A) (x y : A) : <[length l := y]> (l ++ [x]) = l ++ [y].
Proof. induction l as [|a l IH]; simpl; [done | by rewrite IH]. Qed.

(** ** The driver calls, one by one *)

Lemma get_db_connection_ok dsn w :
  pg_accepts w dsn = true ->
  get_db_connection (Some dsn) w =
    (Val (Some (length (connections w))),
     with_received (fun ms => ms ++ [PqStartup dsn])
       (with_connections (fun cs => cs ++ [Connection false TxIdle ∅]) w)).
Proof.
  intros H. unfold get_db_connection, try_except, connect, bind, gets, modify, send, ret.
  cbv [conninfo from_option id]. rewrite H. reflexivity.
Qed.

(** A DSN that is not set behaves as the empty connection string. *)
Lemma setup_database_conninfo dsn w :
  setup_database dsn w = setup_database (Some (conninfo dsn)) w.
Proof. by destruct dsn. Qed.

Lemma get_db_connection_fail dsn w :
  unreachable dsn w ->
  exists msg, get_db_connection dsn w =
    (Val None, with_stdout (fun out => out ++ ["Database connection error: " +:+ msg]) w).
Proof.
  intros H. unfold get_db_connection, try_except, connect, bind, gets, modify, send, ret, raise, print.
  unfold unreachable in H. rewrite H. simpl. eauto.
Qed.

Lemma conn_cursor_ok w h c :
  connections w !! h = Some c -> conn_closed c = false ->
  conn_cursor h w = (Val (length (cursors w)), with_cursors (fun cs => cs ++ [Cursor h false]) w).
Proof.
  intros Hh Hc. unfold conn_cursor, bind, the_connection. rewrite Hh, Hc. reflexivity.
Qed.

Lemma cursor_close_ok w k c :
  cursors w !! k = Some c ->
  cursor_close k w = (Val tt, with_cursors (fun cs => <[k := Cursor (cur_conn c) true]> cs) w).
Proof. intros Hk. unfold cursor_close, bind, the_cursor. rewrite Hk. reflexivity. Qed.

Lemma conn_commit_ok w h st p :
  connections w !! h = Some (Connection false st p) ->
  conn_commit h w = (Val tt, committed h st p w).
Proof.
  intros Hh. unfold conn_commit, bind, the_connection. rewrite Hh. simpl.
  destruct st; reflexivity.
Qed.

Lemma conn_close_ok w h st p :
  connections w !! h = Some (Connection false st p) ->
  conn_close h w =
    (Val tt, with_connections (fun cs => <[h := Connection true TxIdle ∅]> cs)
               (with_received (fun ms => ms ++ [PqTerminate]) w)).
Proof. intros Hh. unfold conn_close, bind, the_connection. rewrite Hh. reflexivity. Qed.

(** ** The loop over the commands *)

Lemma for_each_active qs : forall w k h p,
  cursors w !! k = Some (Cursor h false) ->
  connections w !! h = Some (Connection false TxActive p) ->
  for_each qs (fun command => cursor_execute k command) w = loop_result w h p [] qs.
Proof.
  induction qs as [|q qs IH]; intros w k h p Hk Hh.
  - destruct w as [env de acc cat recv conns curs out]; simpl in *.
    unfold loop_result, ret, with_connections, with_received; simpl.
    rewrite app_nil_r, list_insert_id by done. reflexivity.
  - simpl for_each. unfold loop_result. simpl run_all. simpl attempted.
    unfold bind at 1.
    unfold cursor_execute at 1, bind, the_cursor, the_connection.
    rewrite Hk. simpl. rewrite Hh. simpl.
    unfold send, modify. simpl.
    destruct (run_create q p) as [err|p1] eqn:Hrun.
    + unfold set_connection, modify, raise. simpl. reflexivity.
    + unfold set_connection, modify.
      erewrite IH; cycle 1.
      * simpl. exact Hk.
      * simpl. apply list_lookup_insert_eq. by eapply lookup_lt_Some.
      * unfold loop_result. destruct (run_all qs p1) as [p' [err|]];
          destruct w as [env de acc cat recv conns curs out]; simpl;
          unfold with_connections, with_received; simpl;
          rewrite list_insert_insert_eq, <- app_assoc; reflexivity.
Qed.

Lemma for_each_idle q qs w k h p0 :
  cursors w !! k = Some (Cursor h false) ->
  connections w !! h = Some (Connection false TxIdle p0) ->
  for_each (q :: qs) (fun command => cursor_execute k command) w
  = loop_result w h (pg_catalog w) [PqBegin] (q :: qs).
Proof.
  intros Hk Hh. simpl for_each. unfold loop_result. simpl run_all. simpl attempted.
  unfold bind at 1.
  unfold cursor_execute at 1, bind, the_cursor, the_connection.
  rewrite Hk. simpl. rewrite Hh. simpl.
  unfold send, modify, gets. simpl.
  destruct (run_create q (pg_catalog w)) as [err|p1] eqn:Hrun.
  - unfold set_connection, modify, raise. simpl.
    destruct w as [env de acc cat recv conns curs out]; simpl;
      unfold with_connections, with_received; simpl.
    rewrite <- app_assoc. reflexivity.
  - unfold set_connection, modify.
    erewrite for_each_active; cycle 1.
    + simpl. exact Hk.
    + simpl. apply list_lookup_insert_eq. by eapply lookup_lt_Some.
    + unfold loop_result. destruct (run_all qs p1) as [p' [err|]];
        destruct w as [env de acc cat recv conns curs out]; simpl;
        unfold with_connections, with_received; simpl;
        rewrite list_insert_insert_eq, <- !app_assoc; reflexivity.
Qed.

(** ** A whole run of [setup_database] *)

(** The [finally] block on a connection in state [st] with an open cursor. *)
Lemma finally_block w h k st p :
  cursors w !! k = Some (Cursor h false) ->
  connections w !! h = Some (Connection false st p) ->
  st <> TxIdle ->
  bind (cursor_close k) (fun _ => bind (conn_commit h) (fun _ => conn_close h)) w
  = (Val tt,
     with_connections (fun cs => <[h := Connection true TxIdle ∅]> cs)
       (with_received (fun ms => ms ++ [PqCommit; PqTerminate])
          (with_catalog (fun cat => match st with TxActive => p | _ => cat end)
             (with_cursors (fun cs => <[k := Cursor h true]> cs) w)))).
Proof.
  intros Hk Hh Hst.
  erewrite bind_val by (eapply cursor_close_ok; exact Hk).
  erewrite bind_val by (eapply (conn_commit_ok _ h st p); exact Hh).
  assert (Hlt : h < length (connections w)) by (by eapply lookup_lt_Some).
  erewrite (conn_close_ok _ h TxIdle ∅); cycle 1.
  { destruct st; [done | |]; simpl; by apply list_lookup_insert_eq. }
  f_equal. destruct w as [env de acc cat recv conns curs out].
  destruct st; [done | |]; world_norm;
    rewrite list_insert_insert_eq, <- app_assoc; reflexivity.
Qed.

Lemma setup_database_reachable dsn w :
  pg_accepts w dsn = true ->
  setup_database (Some dsn) w = (Val tt, setup_result dsn w).
Proof.
  intros Hacc. unfold setup_database.
  erewrite bind_val by (by apply get_db_connection_ok). cbv beta iota.
  erewrite bind_val by (eapply conn_cursor_ok; [apply lookup_snoc | reflexivity]).
  set (h := length (connections w)).
  set (w2 := with_cursors _ _).
  assert (Hk : cursors w2 !! length (cursors w) = Some (Cursor h false)) by apply lookup_snoc.
  assert (Hh : connections w2 !! h = Some (Connection false TxIdle ∅)) by apply lookup_snoc.
  pose proof (for_each_idle create_users
                [create_question_sets; create_questions; create_results] w2 _ _ _ Hk Hh) as Hloop.
  fold commands in Hloop. unfold loop_result in Hloop.
  unfold setup_result. change (pg_catalog w2) with (pg_catalog w) in Hloop.
  assert (Hlt : h < length (connections w2)).
  { subst w2. cbn [connections with_cursors with_received with_connections].
    rewrite length_app. simpl. lia. }
  destruct (run_all commands (pg_catalog w)) as [p' [err|]] eqn:Hrun.
  - eapply try_finally_val.
    + erewrite try_except_exc; [ | erewrite bind_exc by exact Hloop; reflexivity | reflexivity ].
      unfold print, modify. reflexivity.
    + erewrite (finally_block _ h _ TxAborted p'); [ | exact Hk | | done ].
      * f_equal. destruct w as [env de acc cat recv conns curs out]. subst h w2.
        world_norm.
        rewrite !list_insert_insert_eq, !insert_snoc, <- !app_assoc. reflexivity.
      * cbn [connections with_stdout with_connections]. by apply list_lookup_insert_eq.
  - eapply try_finally_val.
    + eapply try_except_val. erewrite bind_val by exact Hloop. unfold print, modify. reflexivity.
    + erewrite (finally_block _ h _ TxActive p'); [ | exact Hk | | done ].
      * f_equal. destruct w as [env de acc cat recv conns curs out]. subst h w2.
        world_norm.
        rewrite !list_insert_insert_eq, !insert_snoc, <- !app_assoc. reflexivity.
      * cbn [connections with_stdout with_connections]. by apply list_lookup_insert_eq.
Qed.

Lemma setup_database_unreachable dsn w :
  unreachable dsn w ->
  exists msg,
    setup_database dsn w =
      (Val tt,
       with_stdout (fun out => out ++ ["Database connection error: " +:+ msg;
                                       "Could not connect to the database. Aborting setup."]) w).
Proof.
  intros Hun. unfold setup_database.
  destruct (get_db_connection_fail dsn w Hun) as [msg Hmsg].
  exists msg. erewrite bind_val by exact Hmsg. cbv beta iota.
  unfold print, modify. destruct w. world_norm.
  rewrite <- app_assoc. reflexivity.
Qed.

(** ** The server's answers to the four commands *)

Lemma run_create_exists q (cat : gmap string table) :
  is_Some (cat !! ct_name q) -> run_create q cat = inr cat.
Proof. intros [t Ht]. unfold run_create. by rewrite Ht. Qed.

Lemma run_create_users (cat : gmap string table) :
  cat !! "users" = None ->
  run_create create_users cat = inr (<["users" := new_table create_users]> cat).
Proof. intros H. unfold run_create. simpl ct_name. rewrite H. reflexivity. Qed.

Lemma run_create_question_sets (cat : gmap string table) :
  cat !! "question_sets" = None ->
  run_create create_question_sets cat
  = inr (<["question_sets" := new_table create_question_sets]> cat).
Proof. intros H. unfold run_create. simpl ct_name. rewrite H. reflexivity. Qed.

Lemma run_create_questions (cat : gmap string table) :
  cat !! "questions" = None ->
  cat !! "question_sets" = Some (new_table create_question_sets) ->
  run_create create_questions cat = inr (<["questions" := new_table create_questions]> cat).
Proof.
  intros H Hs. unfold run_create. simpl ct_name. rewrite H.
  cbn [create_questions ct_columns first_error check_column check_constraint col_constraints].
  rewrite Hs. reflexivity.
Qed.

Lemma run_create_results (cat : gmap string table) :
  cat !! "results" = None ->
  cat !! "users" = Some (new_table create_users) ->
  cat !! "question_sets" = Some (new_table create_question_sets) ->
  run_create create_results cat = inr (<["results" := new_table create_results]> cat).
Proof.
  intros H Hu Hs. unfold run_create. simpl ct_name. rewrite H.
  cbn [create_results ct_columns first_error check_column check_constraint col_constraints].
  rewrite Hu. cbn [new_table tbl_columns create_users ct_columns find_column find col_name String.eqb Ascii.eqb Bool.eqb
                   negb existsb is_key_constraint col_constraints orb family family_eqb col_type].
  rewrite Hs. reflexivity.
Qed.

Lemma run_all_fresh (cat : gmap string table) :
  (forall t, In t four_tables -> cat !! t = None) ->
  run_all commands cat = (with_four_tables cat, None).
Proof.
  intros Habs.
  assert (Hu : cat !! "users" = None) by (apply Habs; simpl; tauto).
  assert (Hs : cat !! "question_sets" = None) by (apply Habs; simpl; tauto).
  assert (Hq : cat !! "questions" = None) by (apply Habs; simpl; tauto).
  assert (Hr : cat !! "results" = None) by (apply Habs; simpl; tauto).
  unfold commands, run_all.
  rewrite run_create_users by exact Hu.
  rewrite run_create_question_sets by (rewrite lookup_insert_ne by discriminate; exact Hs).
  rewrite run_create_questions; cycle 1.
  { rewrite !lookup_insert_ne by discriminate. exact Hq. }
  { apply lookup_insert_eq. }
  rewrite run_create_results; cycle 1.
  { rewrite !lookup_insert_ne by discriminate. exact Hr. }
  { rewrite !lookup_insert_ne by discriminate. apply lookup_insert_eq. }
  { rewrite lookup_insert_ne by discriminate. apply lookup_insert_eq. }
  reflexivity.
Qed.

(** A statement that succeeds leaves its table in the catalog and removes
    none. *)
Lemma run_create_grows q (cat cat' : gmap string table) :
  run_create q cat = inr cat' ->
  is_Some (cat' !! ct_name q) /\ (forall t, is_Some (cat !! t) -> is_Some (cat' !! t)).
Proof.
  unfold run_create. destruct (cat !! ct_name q) as [tb|] eqn:Hq.
  - intros [= <-]. split; [by rewrite Hq | auto].
  - destruct (first_error _ _); [discriminate|]. intros [= <-]. split.
    + rewrite lookup_insert_eq. eauto.
    + intros t Ht. destruct (decide (ct_name q = t)) as [<-|Hne].
      * rewrite lookup_insert_eq. eauto.
      * by rewrite lookup_insert_ne.
Qed.

Lemma run_all_present qs : forall cat : gmap string table,
  (forall q, In q qs -> is_Some (cat !! ct_name q)) ->
  run_all qs cat = (cat, None).
Proof.
  induction qs as [|q qs IH]; intros cat Hall; [reflexivity|].
  simpl. rewrite run_create_exists by (apply Hall; by left).
  apply IH. intros q' Hq'. apply Hall. by right.
Qed.

Lemma run_all_creates qs : forall cat cat' : gmap string table,
  run_all qs cat = (cat', None) ->
  (forall q, In q qs -> is_Some (cat' !! ct_name q))
  /\ (forall t, is_Some (cat !! t) -> is_Some (cat' !! t)).
Proof.
  induction qs as [|q qs IH]; intros cat cat' Hrun; simpl in Hrun.
  - injection Hrun as <-. split; [intros q [] | auto].
  - destruct (run_create q cat) as [err|cat1] eqn:Hq; [discriminate|].
    destruct (run_create_grows _ _ _ Hq) as [Hin Hmono].
    destruct (IH _ _ Hrun) as [Hall Hmono'].
    split; [|by auto].
    intros q' [<-|Hq']; [by apply Hmono' | by apply Hall].
Qed.

Lemma commands_names : List.map ct_name commands = four_tables.
Proof. reflexivity. Qed.

Lemma four_tables_present (cat : gmap string table) :
  (forall t, In t four_tables -> is_Some (cat !! t)) ->
  forall q, In q commands -> is_Some (cat !! ct_name q).
Proof.
  intros H q Hq. apply H. rewrite <- commands_names. by apply in_map.
Qed.

(** The committed catalog after [setup_database], in every case. *)
Lemma setup_database_catalog dsn w :
  pg_accepts (snd (setup_database dsn w)) = pg_accepts w
  /\ (pg_catalog (snd (setup_database dsn w)) = pg_catalog w
      \/ (pg_accepts w (conninfo dsn) = true
          /\ run_all commands (pg_catalog w)
             = (pg_catalog (snd (setup_database dsn w)), None))).
Proof.
  destruct (pg_accepts w (conninfo dsn)) eqn:Hd.
  - rewrite setup_database_conninfo, (setup_database_reachable _ _ Hd). unfold setup_result.
    destruct (run_all commands (pg_catalog w)) as [c [err|]] eqn:Hrun;
      cbn [snd finished pg_accepts pg_catalog]; split; try reflexivity.
    + by left.
    + right. by rewrite <- Hrun.
  - destruct (setup_database_unreachable dsn w Hd) as [msg ->]. simpl. auto.
Qed.

(** ** Table creation *)

(** C2. Against a reachable server whose catalog has none of the four
    tables, [setup_database] returns normally and commits exactly the tables
    users, question_sets, questions and results, each empty and with the
    documented columns; every other relation is left as it was. *)
Theorem setup_database_creates_four_tables (dsn : string) (w : world) :
  pg_accepts w dsn = true ->
  (forall t, In t four_tables -> pg_catalog w !! t = None) ->
  let r := setup_database (Some dsn) w in
  fst r = Val tt
  /\ pg_catalog (snd r) = with_four_tables (pg_catalog w)
  /\ (forall t cols, In (t, cols) documented_columns ->
        exists tb, pg_catalog (snd r) !! t = Some tb
                   /\ column_names (tbl_columns tb) = cols /\ tbl_rows tb = [])
  /\ (forall t, ~ In t four_tables -> pg_catalog (snd r) !! t = pg_catalog w !! t)
  /\ dom (pg_catalog (snd r)) = dom (pg_catalog w) ∪ list_to_set four_tables.
Proof.
  intros Hacc Habs r. subst r.
  rewrite (setup_database_reachable _ _ Hacc). unfold setup_result.
  rewrite (run_all_fresh _ Habs). cbn [fst snd finished pg_catalog].
  split; [reflexivity|]. split; [reflexivity|]. unfold with_four_tables. split; [|split].
  - intros t cols Hin. simpl in Hin.
    destruct Hin as [[= <- <-]|[[= <- <-]|[[= <- <-]|[[= <- <-]|[]]]]].
    + exists (new_table create_users). split; [|split; reflexivity].
      rewrite !lookup_insert_ne by discriminate. apply lookup_insert_eq.
    + exists (new_table create_question_sets). split; [|split; reflexivity].
      rewrite !lookup_insert_ne by discriminate. apply lookup_insert_eq.
    + exists (new_table create_questions). split; [|split; reflexivity].
      rewrite !lookup_insert_ne by discriminate. apply lookup_insert_eq.
    + exists (new_table create_results). split; [|split; reflexivity].
      apply lookup_insert_eq.
  - intros t Hnot. unfold four_tables in Hnot. simpl in Hnot.
    rewrite !lookup_insert_ne; [reflexivity | | | |]; intros <-; apply Hnot;
      repeat (try (left; reflexivity); right).
  - rewrite !dom_insert_L. unfold four_tables. apply set_eq. intros x.
    cbn [list_to_set foldr].
    rewrite !elem_of_union, !elem_of_singleton, elem_of_empty. tauto.
Qed.

Lemma setup_database_creates_four_tables_witness :
  pg_accepts empty_db sample_dsn = true
  /\ (forall t, In t four_tables -> pg_catalog empty_db !! t = None)
  /\ fst (setup_database (Some sample_dsn) empty_db) = Val tt
  /\ pg_catalog (snd (setup_database (Some sample_dsn) empty_db)) = with_four_tables ∅.
Proof.
  assert (Hacc : pg_accepts empty_db sample_dsn = true) by reflexivity.
  assert (Habs : forall t, In t four_tables -> pg_catalog empty_db !! t = None)
    by (intros t _; apply lookup_empty).
  split; [exact Hacc|]. split; [exact Habs|].
  split; apply (setup_database_creates_four_tables sample_dsn empty_db Hacc Habs).
Defined.

(** C3. When the four tables already exist, a run of [setup_database]
    leaves the committed catalog (tables, columns and rows) as it was,
    whatever the configured DSN and whether or not the server answers. *)
Theorem setup_database_idempotent (dsn : option string) (w : world) :
  (forall t, In t four_tables -> is_Some (pg_catalog w !! t)) ->
  pg_catalog (snd (setup_database dsn w)) = pg_catalog w.
Proof.
  intros Hall.
  destruct (setup_database_catalog dsn w) as [_ [Hsame|[Hd Hrun]]]; [exact Hsame|].
  rewrite (run_all_present commands) in Hrun by (by apply four_tables_present).
  by injection Hrun.
Qed.

Lemma setup_database_idempotent_witness :
  (forall t, In t four_tables -> is_Some (pg_catalog ready_db !! t))
  /\ pg_catalog (snd (setup_database (Some sample_dsn) ready_db)) = pg_catalog ready_db.
Proof.
  assert (Hall : forall t, In t four_tables -> is_Some (pg_catalog ready_db !! t)).
  { intros t Ht. simpl in Ht.
    destruct Ht as [<-|[<-|[<-|[<-|[]]]]]; vm_compute; eauto. }
  split; [exact Hall|].
  apply (setup_database_idempotent (Some sample_dsn) ready_db Hall).
Defined.

(** X15. Two runs of [setup_database] in a row commit what one run commits,
    from any catalog and whether or not the server answers. *)
Lemma setup_database_twice (dsn : option string) (w : world) :
  pg_catalog (snd (setup_database dsn (snd (setup_database dsn w))))
  = pg_catalog (snd (setup_database dsn w)).
Proof.
  rewrite !(setup_database_conninfo dsn). generalize (conninfo dsn). intros d.
  destruct (pg_accepts w d) eqn:Hd.
  - rewrite (setup_database_reachable _ _ Hd). cbn [snd].
    assert (Hd' : pg_accepts (setup_result d w) d = true).
    { unfold setup_result. by destruct (run_all commands (pg_catalog w)) as [c [err|]]. }
    rewrite (setup_database_reachable _ _ Hd'). cbn [snd].
    unfold setup_result at 1.
    assert (Hw1 : setup_result d w = setup_result d w) by reflexivity.
    unfold setup_result at 2 in Hw1. revert Hw1.
    destruct (run_all commands (pg_catalog w)) as [c [err|]] eqn:Hrun; intros Hw1.
    + rewrite Hw1 at 1. cbn [finished pg_catalog]. rewrite Hrun. by rewrite Hw1.
    + destruct (run_all_creates _ _ _ Hrun) as [Hall _].
      rewrite Hw1 at 1. cbn [finished pg_catalog].
      rewrite (run_all_present commands) by exact Hall. by rewrite Hw1.
  - destruct (setup_database_unreachable (Some d) w Hd) as [msg ->]. cbn [snd].
    destruct (setup_database_unreachable (Some d) (with_stdout
                (fun out => out ++ ["Database connection error: " +:+ msg;
                                    "Could not connect to the database. Aborting setup."]) w) Hd)
      as [msg' ->].
    reflexivity.
Qed.

(** ** A failing statement *)

(** The loop raises exactly when the server rejects one of the statements,
    and then the transaction is aborted on the catalog it had reached. *)
Lemma loop_raises_iff_rejected q qs w k h p0 :
  cursors w !! k = Some (Cursor h false) ->
  connections w !! h = Some (Connection false TxIdle p0) ->
  forall p err,
    run_all (q :: qs) (pg_catalog w) = (p, Some err) <->
    exists w', for_each (q :: qs) (fun command => cursor_execute k command) w
               = (Exc (Exn ProgrammingError (sql_error_message err)), w')
               /\ connections w' !! h = Some (Connection false TxAborted p)
               /\ snd (run_all (q :: qs) (pg_catalog w)) = Some err.
Proof.
  intros Hk Hh p err. rewrite (for_each_idle _ _ _ _ _ _ Hk Hh). unfold loop_result.
  assert (Hlt : h < length (connections w)) by (by eapply lookup_lt_Some).
  destruct (run_all (q :: qs) (pg_catalog w)) as [p' [err'|]]; split.
  - intros [= -> ->]. eexists. split; [reflexivity|]. split; [|reflexivity].
    cbn [connections with_connections with_received]. by apply list_lookup_insert_eq.
  - intros (w' & [= Hmsg <-] & Hconn & [= ->]).
    cbn [connections with_connections with_received] in Hconn.
    rewrite list_lookup_insert_eq in Hconn by exact Hlt. by injection Hconn as ->.
  - discriminate.
  - intros (w' & [=] & _).
Qed.

(** C5, as amended. When the server rejects a CREATE TABLE statement, the
    error is printed and not re-raised, commit is still sent and the cursor
    and the connection are closed; the rejected statement has aborted the
    transaction, so the commit is answered by a rollback and the committed
    catalog is the one from before the run. *)
Theorem setup_database_failed_statement (dsn : string) (w : world)
    (p : gmap string table) (err : sql_error) :
  pg_accepts w dsn = true ->
  run_all commands (pg_catalog w) = (p, Some err) ->
  let r := setup_database (Some dsn) w in
  fst r = Val tt
  /\ stdout (snd r) = stdout w ++ ["Error during table creation: " +:+ sql_error_message err]
  /\ pg_received (snd r)
     = pg_received w ++ [PqStartup dsn] ++ [PqBegin]
         ++ List.map PqQuery (attempted commands (pg_catalog w))
         ++ [PqCommit] ++ [PqTerminate]
  /\ cursors (snd r) = cursors w ++ [Cursor (length (connections w)) true]
  /\ connections (snd r) = connections w ++ [Connection true TxIdle ∅]
  /\ pg_catalog (snd r) = pg_catalog w.
Proof.
  intros Hacc Hrun r. subst r.
  rewrite (setup_database_reachable _ _ Hacc). unfold setup_result. rewrite Hrun.
  cbn [fst snd finished stdout pg_received cursors connections pg_catalog].
  repeat split; reflexivity.
Qed.

Lemma legacy_db_rejects_questions :
  run_all commands (pg_catalog legacy_db)
  = (<["users" := new_table create_users]> (pg_catalog legacy_db),
     Some (UndefinedColumn "question_sets" "id")).
Proof.
  unfold commands, run_all.
  rewrite run_create_users by reflexivity.
  rewrite run_create_exists by (vm_compute; eauto).
  unfold run_create. cbn [ct_name create_questions].
  rewrite lookup_insert_ne by discriminate.
  reflexivity.
Qed.

Lemma setup_database_failed_statement_witness :
  pg_accepts legacy_db sample_dsn = true
  /\ fst (setup_database (Some sample_dsn) legacy_db) = Val tt
  /\ stdout (snd (setup_database (Some sample_dsn) legacy_db))
     = ["Error during table creation: "
        +:+ sql_error_message (UndefinedColumn "question_sets" "id")]
  /\ pg_catalog (snd (setup_database (Some sample_dsn) legacy_db)) = pg_catalog legacy_db.
Proof.
  assert (Hacc : pg_accepts legacy_db sample_dsn = true) by reflexivity.
  pose proof (setup_database_failed_statement sample_dsn legacy_db _ _ Hacc
                legacy_db_rejects_questions) as H.
  split; [exact Hacc|]. split; [apply H|]. split; apply H.
Defined.

(** C5, as stated, fails: on [legacy_db] the first statement creates
    [users], the third is rejected, and [users] is not in the committed
    catalog afterwards. *)
Lemma partial_tables_not_kept : ~ partial_tables_kept.
Proof.
  intros Hkept.
  assert (Hacc : pg_accepts legacy_db sample_dsn = true) by reflexivity.
  specialize (Hkept sample_dsn legacy_db _ _ Hacc legacy_db_rejects_questions "users").
  rewrite (setup_database_reachable _ _ Hacc) in Hkept. unfold setup_result in Hkept.
  rewrite legacy_db_rejects_questions in Hkept.
  cbn [snd finished pg_catalog] in Hkept.
  destruct Hkept as [tb Htb].
  - rewrite lookup_insert_eq. eauto.
  - vm_compute in Htb. discriminate.
Qed.

(** ** Configuration *)

(** C6, as amended. Both settings are read from the environment (process
    variables, then the .env file). The connection string is whatever
    DATABASE_URL holds there and is absent when the variable is not set; the
    signing secret is the value of SECRET_KEY when it is set, and the
    built-in default otherwise. *)
Theorem configure_reads_environment (w : world) :
  let env := environ w ∪ dotenv_file w in
  exists cfg,
    configure w = (Val cfg, with_environ (fun _ => env) w)
    /\ DATABASE_URL cfg = env !! "DATABASE_URL"
    /\ (forall v, env !! "SECRET_KEY" = Some v -> SECRET_KEY cfg = v)
    /\ (env !! "SECRET_KEY" = None -> SECRET_KEY cfg = default_secret_key).
Proof.
  intros env. eexists. split; [reflexivity|]. cbn [DATABASE_URL SECRET_KEY].
  split; [reflexivity|]. cbn [environ with_environ]. fold env.
  split; [intros v Hv | intros Hv]; by rewrite Hv.
Qed.

(** C6, as stated, fails: with SECRET_KEY set nowhere the program still
    configures a secret, the literal of the source. *)
Lemma secret_key_not_from_environment : ~ secret_from_environment.
Proof.
  intros Hext.
  specialize (Hext offline (Config default_secret_key None) _ eq_refl).
  vm_compute in Hext. discriminate.
Qed.

(** ** Matching a request against the route table *)

Lemma strip_prefix_spec p : forall s rest,
  strip_prefix p s = Some rest <-> s = p +:+ rest.
Proof.
  induction p as [|a p IH]; intros s rest; simpl.
  - split; [by intros [= ->] | by intros ->].
  - destruct s as [|b s]; [split; discriminate|].
    destruct (Ascii.eqb_spec a b) as [->|Hne].
    + rewrite IH. split; [by intros -> | by intros [= ->]].
    + split; [discriminate | intros [= Hab _]; congruence].
Qed.

Lemma append_cancel p : forall a b, p +:+ a = p +:+ b -> a = b.
Proof. induction p as [|c p IH]; intros a b; simpl; [done|]. intros [= H]. by apply IH. Qed.

Lemma digit_value_is_digit c : is_Some (digit_value c) <-> is_digit c = true.
Proof.
  unfold digit_value, is_digit. cbv zeta.
  destruct ((48 <=? N_of_ascii c)%N && (N_of_ascii c <=? 57)%N); split; eauto.
  - intros [n Hn]. discriminate.
  - discriminate.
Qed.

Lemma parse_digits_all_digits s : forall acc,
  is_Some (parse_digits s acc) <-> all_digits s = true.
Proof.
  induction s as [|c s IH]; intros acc; simpl.
  - split; eauto.
  - pose proof (digit_value_is_digit c) as Hc.
    destruct (digit_value c) as [d|].
    + rewrite IH. destruct (is_digit c); simpl; [tauto|].
      destruct Hc as [Hc _]. specialize (Hc (ltac:(eauto))). discriminate.
    + destruct (is_digit c); simpl.
      * destruct Hc as [_ [n Hn]]; [reflexivity | discriminate].
      * split; [intros [n Hn]|]; discriminate.
Qed.

Lemma parse_int_is_decimal s : is_Some (parse_int s) <-> is_decimal s = true.
Proof.
  destruct s as [|c s].
  - simpl. split; [intros [n Hn]|]; discriminate.
  - unfold parse_int, is_decimal. apply parse_digits_all_digits.
Qed.

Lemma match_path_fits rp p :
  is_Some (match_path rp p) <-> fits (template_of rp) p.
Proof.
  destruct rp as [s|prefix arg]; simpl.
  - destruct (String.eqb_spec s p) as [->|Hne].
    + split; eauto.
    + split; [intros [x Hx]; discriminate | congruence].
  - destruct (strip_prefix prefix p) as [rest|] eqn:Hstrip.
    + apply strip_prefix_spec in Hstrip as ->.
      pose proof (parse_int_is_decimal rest) as Hdec.
      destruct (parse_int rest) as [n|].
      * split; [|eauto]. intros _. exists rest. split; [reflexivity|]. apply Hdec. eauto.
      * split; [intros [x Hx]; discriminate|].
        intros (id & Heq & Hid). apply append_cancel in Heq as <-.
        apply Hdec in Hid as [n Hn]. discriminate.
    + split; [intros [x Hx]; discriminate|].
      intros (id & -> & _).
      assert (Hs : strip_prefix prefix (prefix +:+ id) = Some id) by (by apply strip_prefix_spec).
      congruence.
Qed.

Lemma match_rules_inv rules meth p : forall seen ep arg,
  match_rules rules meth p seen = Matched ep arg ->
  exists r, In r rules /\ rule_endpoint r = ep
            /\ match_path (rule_pattern r) p = Some arg
            /\ existsb (String.eqb meth) (rule_methods r) = true.
Proof.
  induction rules as [|r rules IH]; intros seen ep arg; simpl.
  - destruct seen; discriminate.
  - destruct (match_path (rule_pattern r) p) as [a|] eqn:Hp.
    + destruct (existsb (String.eqb meth) (rule_methods r)) eqn:Hm.
      * intros [= <- <-]. exists r. auto.
      * intros H. destruct (IH _ _ _ H) as (r' & Hin & Hr'). exists r'. auto.
    + intros H. destruct (IH _ _ _ H) as (r' & Hin & Hr'). exists r'. auto.
Qed.

Lemma match_rules_complete rules meth p : forall seen r,
  In r rules ->
  is_Some (match_path (rule_pattern r) p) ->
  existsb (String.eqb meth) (rule_methods r) = true ->
  exists ep arg, match_rules rules meth p seen = Matched ep arg.
Proof.
  induction rules as [|r0 rules IH]; intros seen r Hin Hp Hm; [destruct Hin|].
  simpl. destruct Hin as [->|Hin].
  - destruct Hp as [a ->]. rewrite Hm. eauto.
  - destruct (match_path (rule_pattern r0) p) as [a|].
    + destruct (existsb (String.eqb meth) (rule_methods r0)); eauto.
    + eauto.
Qed.

Lemma on_routes_of rules meth p :
  on_routes (routes_of rules) meth p <->
  exists r, In r rules /\ is_Some (match_path (rule_pattern r) p)
            /\ existsb (String.eqb meth) (rule_methods r) = true.
Proof.
  unfold on_routes, routes_of. split.
  - intros ([m t] & Hin & Hm & Hfit). simpl in Hm, Hfit. subst m.
    apply in_flat_map in Hin as (r & Hr & Hin).
    apply in_map_iff in Hin as (m & [= <- <-] & Hm).
    exists r. split; [exact Hr|]. split; [by apply match_path_fits|].
    apply existsb_exists. exists m. split; [exact Hm|]. apply String.eqb_refl.
  - intros (r & Hr & Hp & Hm).
    apply existsb_exists in Hm as (m & Hm & Heq). apply String.eqb_eq in Heq as <-.
    exists (meth, template_of (rule_pattern r)). split; [|split; [reflexivity|]].
    + apply in_flat_map. exists r. split; [exact Hr|].
      apply in_map_iff. exists meth. auto.
    + by apply match_path_fits.
Qed.


Lemma tail_routes : Permutation (routes_of (tl url_map)) non_root_routes.
Proof.
  unfold routes_of, url_map, non_root_routes.
  cbn [tl flat_map List.map rule_methods rule_pattern template_of app].
  do 6 apply perm_skip. apply perm_swap.
Qed.

Lemma on_routes_perm l1 l2 meth p :
  Permutation l1 l2 -> on_routes l1 meth p <-> on_routes l2 meth p.
Proof.
  intros Hperm. unfold on_routes. split; intros (e & Hin & H); exists e; split; auto.
  - by eapply Permutation_in.
  - eapply Permutation_in; [symmetry|]; eauto.
Qed.

(** No rule after the first fits the root path. *)
Lemma tail_rules_miss_root r :
  In r (tl url_map) -> match_path (rule_pattern r) "/" = None.
Proof.
  unfold url_map. cbn [tl In].
  intros H. repeat (destruct H as [<-|H]; [reflexivity|]). destruct H.
Qed.

(** A request on one of the twelve routes reaches a view other than
    [index], through a rule that is not the first. *)
Lemma non_root_route_matched meth p :
  on_routes non_root_routes meth p ->
  exists r arg, In r (tl url_map)
                /\ match_rules url_map meth p false = Matched (rule_endpoint r) arg
                /\ match_path (rule_pattern r) p = Some arg
                /\ existsb (String.eqb meth) (rule_methods r) = true.
Proof.
  intros Hon. apply (on_routes_perm _ _ _ _ tail_routes) in Hon.
  apply on_routes_of in Hon as (r & Hr & Hp & Hm).
  destruct (match_rules_complete url_map meth p false r) as (ep & arg & Hmatch); auto.
  { by right. }
  destruct (match_rules_inv _ _ _ _ _ _ Hmatch) as (r' & [<-|Hr'] & Hep & Hp' & Hm').
  - exfalso. cbn [match_path rule_pattern] in Hp'. revert Hp'.
    destruct (String.eqb_spec "/" p) as [<-|]; [intros _|discriminate].
    rewrite (tail_rules_miss_root r Hr) in Hp. by destruct Hp.
  - exists r', arg. by rewrite Hep.
Qed.

(** No path fits two rules of the table. *)
Lemma url_map_disjoint r1 r2 p :
  In r1 url_map -> In r2 url_map ->
  is_Some (match_path (rule_pattern r1) p) ->
  is_Some (match_path (rule_pattern r2) p) ->
  r1 = r2.
Proof.
  intros H1 H2 Hp1 Hp2.
  apply match_path_fits in Hp1. apply match_path_fits in Hp2.
  unfold url_map in H1, H2. cbn [In] in H1, H2.
  repeat (destruct H1 as [<-|H1]; [cbn [rule_pattern template_of fits] in Hp1|]);
    try (destruct H1);
    repeat (destruct H2 as [<-|H2]; [cbn [rule_pattern template_of fits] in Hp2|]);
    try (destruct H2);
    try reflexivity; exfalso;
    repeat match goal with
           | H : exists _, _ |- _ => destruct H as (? & ? & _)
           end;
    subst p;
    match goal with
    | H : _ = _ |- _ => cbn [String.append] in H; discriminate H
    end.
Qed.

(** ** The rules the framework registers *)

Lemma has_method_In m ms : has_method m ms = true <-> In m ms.
Proof.
  unfold has_method. rewrite existsb_exists. split.
  - intros (x & Hin & Heq). by apply String.eqb_eq in Heq as ->.
  - intros Hin. exists m. split; [exact Hin | apply String.eqb_refl].
Qed.

(** The methods of a registered rule: the declared ones, OPTIONS, and HEAD
    where GET is declared. *)
Lemma add_url_rule_methods t ms meth :
  has_method meth (reg_methods (add_url_rule t ms)) = true
  <-> In meth ms \/ meth = "OPTIONS" \/ (meth = "HEAD" /\ In "GET" ms).
Proof.
  unfold add_url_rule. cbv zeta. cbn [reg_methods].
  set (ms1 := if negb (has_method "OPTIONS" ms) then ms ++ ["OPTIONS"] else ms).
  assert (H1 : forall m, In m ms1 <-> In m ms \/ m = "OPTIONS").
  { intros m. subst ms1. destruct (has_method "OPTIONS" ms) eqn:Ho; cbn [negb].
    - apply has_method_In in Ho. split; [auto | intros [H| ->]; auto].
    - rewrite in_app_iff. cbn [In]. intuition. }
  rewrite has_method_In.
  destruct (has_method "GET" ms1 && negb (has_method "HEAD" ms1)) eqn:Hc.
  - apply andb_true_iff in Hc as [Hg _]. apply has_method_In, H1 in Hg.
    destruct Hg as [Hg|Hg]; [|discriminate].
    rewrite in_app_iff, H1. cbn [In]. intuition.
  - rewrite H1. split; [tauto|]. intros [H|[H|[-> Hg]]]; auto.
    apply andb_false_iff in Hc as [Hc|Hc].
    + assert (Hg1 : has_method "GET" ms1 = true) by (apply has_method_In, H1; auto).
      congruence.
    + by apply negb_false_iff, has_method_In, H1 in Hc.
Qed.

Lemma url_map_plain r :
  In r url_map -> has_method "OPTIONS" (rule_methods r) = false.
Proof.
  unfold url_map. cbn [In].
  intros H. repeat (destruct H as [<-|H]; [reflexivity|]). destruct H.
Qed.

Lemma route_automatic_options r :
  In r url_map -> reg_automatic_options (route r) = true.
Proof. intros Hr. unfold route, add_url_rule. cbn. by rewrite (url_map_plain r Hr). Qed.

Lemma fit_route r p s :
  fit (reg_target (route r)) p = Some s
  <-> exists arg, match_path (rule_pattern r) p = Some arg /\ s = ToView (rule_endpoint r) arg.
Proof.
  unfold route, add_url_rule. cbn [reg_target fit].
  destruct (match_path (rule_pattern r) p) as [arg|]; cbn [option_map].
  - split; [intros [= <-]; eauto | by intros (arg' & [= <-] & ->)].
  - split; [discriminate | by intros (arg' & [=] & _)].
Qed.

Lemma fit_static p s :
  fit (reg_target static_rule) p = Some s
  <-> exists name, p = "/static/" +:+ name /\ is_file_path name = true
                   /\ s = ToStaticFile name.
Proof.
  unfold static_rule, add_url_rule. cbn [reg_target fit].
  destruct (strip_prefix "/static/" p) as [name|] eqn:Hp.
  - apply strip_prefix_spec in Hp as ->.
    destruct (is_file_path name) eqn:Hn.
    + split; [intros [= <-]; eauto|].
      by intros (name' & Heq & _ & ->); apply append_cancel in Heq as <-.
    + split; [discriminate|].
      intros (name' & Heq & Hn' & _). apply append_cancel in Heq as <-. congruence.
  - split; [discriminate|]. intros (name & -> & _).
    assert (Hs : strip_prefix "/static/" ("/static/" +:+ name) = Some name)
      by (by apply strip_prefix_spec).
    congruence.
Qed.

(** No route of app.py fits a path under [/static/]. *)
Lemma static_misses_routes r name :
  In r url_map -> match_path (rule_pattern r) ("/static/" +:+ name) = None.
Proof.
  unfold url_map. cbn [In].
  intros H. repeat (destruct H as [<-|H]; [reflexivity|]). destruct H.
Qed.

(** No path fits two registered rules. *)
Lemma registered_disjoint r1 r2 p :
  In r1 registered_rules -> In r2 registered_rules ->
  is_Some (fit (reg_target r1) p) -> is_Some (fit (reg_target r2) p) ->
  r1 = r2.
Proof.
  assert (Hmix : forall r s1 s2, In r url_map ->
            fit (reg_target static_rule) p = Some s1 ->
            fit (reg_target (route r)) p = Some s2 -> False).
  { intros r s1 s2 Hr Hs1 Hs2.
    apply fit_static in Hs1 as (name & -> & _). apply fit_route in Hs2 as (arg & Harg & _).
    by rewrite (static_misses_routes r name Hr) in Harg. }
  unfold registered_rules. cbn [In]. rewrite !in_map_iff.
  intros [<-|(q1 & <- & Hq1)] [<-|(q2 & <- & Hq2)] [s1 Hs1] [s2 Hs2].
  - reflexivity.
  - exfalso. by eapply Hmix.
  - exfalso. by eapply Hmix.
  - apply fit_route in Hs1 as (a1 & Ha1 & _). apply fit_route in Hs2 as (a2 & Ha2 & _).
    f_equal. apply (url_map_disjoint q1 q2 p); [done | done | by rewrite Ha1 | by rewrite Ha2].
Qed.

Lemma find_rule_none rules meth p :
  (forall r, In r rules ->
             fit (reg_target r) p = None \/ has_method meth (reg_methods r) = false) ->
  find_rule rules meth p = NoView.
Proof.
  induction rules as [|r rules IH]; intros Hnone; [reflexivity|].
  cbn [find_rule].
  assert (Htl : find_rule rules meth p = NoView)
    by (apply IH; intros r' Hr'; apply Hnone; by right).
  destruct (Hnone r) as [-> | ->]; [by left | exact Htl |].
  by destruct (fit (reg_target r) p).
Qed.

(** Where a rule fits the path, it decides the request alone. *)
Lemma find_rule_at rules meth p r s :
  (forall r', In r' rules -> is_Some (fit (reg_target r') p) -> r' = r) ->
  In r rules ->
  fit (reg_target r) p = Some s ->
  find_rule rules meth p
  = if has_method meth (reg_methods r)
    then if reg_automatic_options r && String.eqb meth "OPTIONS"
         then AutomaticOptions else s
    else NoView.
Proof.
  induction rules as [|r0 rules IH]; intros Hone Hin Hfit; [destruct Hin|].
  cbn [find_rule]. destruct (fit (reg_target r0) p) as [s0|] eqn:H0.
  - assert (r0 = r) as -> by (apply Hone; [by left | eauto]).
    rewrite Hfit in H0. injection H0 as <-.
    destruct (has_method meth (reg_methods r)) eqn:Hm; [reflexivity|].
    apply find_rule_none. intros r' Hr'.
    destruct (fit (reg_target r') p) as [s'|] eqn:H'; [|by left].
    right. assert (r' = r) as -> by (apply Hone; [by right | eauto]). exact Hm.
  - destruct Hin as [->|Hin]; [congruence|].
    apply IH; [|exact Hin|exact Hfit]. intros r' Hr'. apply Hone. by right.
Qed.

Lemma fit_dec rules p :
  (exists r s, In r rules /\ fit (reg_target r) p = Some s)
  \/ (forall r, In r rules -> fit (reg_target r) p = None).
Proof.
  induction rules as [|r0 rules IH].
  - right. intros r [].
  - destruct (fit (reg_target r0) p) as [s|] eqn:H0.
    + left. exists r0, s. split; [by left | exact H0].
    + destruct IH as [(r & s & Hr & Hs)|Hnone].
      * left. exists r, s. split; [by right | exact Hs].
      * right. intros r [<-|Hr]; auto.
Qed.

(** A request for a path that fits a registered rule. *)
Lemma find_registered meth p r s :
  In r registered_rules ->
  fit (reg_target r) p = Some s ->
  find_rule registered_rules meth p
  = if has_method meth (reg_methods r)
    then if reg_automatic_options r && String.eqb meth "OPTIONS"
         then AutomaticOptions else s
    else NoView.
Proof.
  intros Hr Hs. apply find_rule_at; [|exact Hr|exact Hs].
  intros r' Hr' Hs'. apply (registered_disjoint r' r p); eauto.
Qed.

(** A view of app.py is reached through a declared rule that fits the path,
    on a method that the rule declares, or on HEAD where it declares GET. *)
Lemma dispatch_view meth p ep arg :
  modelled p = true ->
  dispatch_request meth p = ToView ep arg
  <-> exists r, In r url_map /\ rule_endpoint r = ep
                /\ match_path (rule_pattern r) p = Some arg
                /\ (In meth (rule_methods r) \/ (meth = "HEAD" /\ In "GET" (rule_methods r))).
Proof.
  intros Hmod. unfold dispatch_request. rewrite Hmod. split.
  - intros Hfind.
    destruct (fit_dec registered_rules p) as [(r & s & Hr & Hs)|Hnone]; cycle 1.
    { rewrite find_rule_none in Hfind by (intros r Hr; left; by apply Hnone). discriminate. }
    rewrite (find_registered meth p r s Hr Hs) in Hfind.
    destruct (has_method meth (reg_methods r)) eqn:Hm; [|discriminate].
    unfold registered_rules in Hr. cbn [In] in Hr. rewrite in_map_iff in Hr.
    destruct Hr as [<-|(q & <- & Hq)].
    + apply fit_static in Hs as (name & _ & _ & ->).
      by destruct (reg_automatic_options static_rule && String.eqb meth "OPTIONS").
    + rewrite (route_automatic_options q Hq) in Hfind. cbn [andb] in Hfind.
      apply fit_route in Hs as (arg' & Harg & ->).
      destruct (String.eqb_spec meth "OPTIONS") as [Ho|Ho]; [discriminate|].
      injection Hfind as <- <-.
      exists q. split; [exact Hq|]. split; [reflexivity|]. split; [exact Harg|].
      apply add_url_rule_methods in Hm. tauto.
  - intros (q & Hq & <- & Harg & Hm).
    assert (Hr : In (route q) registered_rules) by (right; by apply in_map).
    assert (Hs : fit (reg_target (route q)) p = Some (ToView (rule_endpoint q) arg))
      by (apply fit_route; eauto).
    rewrite (find_registered meth p _ _ Hr Hs), (route_automatic_options q Hq).
    assert (Hlisted : has_method meth (reg_methods (route q)) = true)
      by (apply add_url_rule_methods; tauto).
    rewrite Hlisted. cbn [andb].
    destruct (String.eqb_spec meth "OPTIONS") as [->|Ho]; [|reflexivity].
    exfalso. destruct Hm as [Hm|[Hm _]]; [|discriminate].
    apply has_method_In in Hm. by rewrite (url_map_plain q Hq) in Hm.
Qed.

(** Matching against the declared rules and dispatch over the registered
    rules hand the same requests to the same views, HEAD apart. *)
Lemma declared_dispatch_agrees meth p ep arg :
  modelled p = true -> meth <> "HEAD" ->
  match_rules url_map meth p false = Matched ep arg
  <-> dispatch_request meth p = ToView ep arg.
Proof.
  intros Hmod Hhead. rewrite (dispatch_view meth p ep arg Hmod). split.
  - intros Hmatch.
    destruct (match_rules_inv _ _ _ _ _ _ Hmatch) as (r & Hr & Hep & Hp & Hm).
    exists r. split; [exact Hr|]. split; [exact Hep|]. split; [exact Hp|].
    left. by apply has_method_In.
  - intros (r & Hr & <- & Hp & [Hm|[-> _]]); [|done].
    apply has_method_In in Hm.
    destruct (match_rules_complete url_map meth p false r Hr) as (ep' & arg' & Hmatch);
      [by rewrite Hp | exact Hm |].
    destruct (match_rules_inv _ _ _ _ _ _ Hmatch) as (r' & Hr' & Hep' & Hp' & _).
    assert (r' = r) as ->
      by (apply (url_map_disjoint r' r p); [done | done | by rewrite Hp' | by rewrite Hp]).
    rewrite Hmatch. congruence.
Qed.

(** ** The view functions *)

(** A view neither reads nor writes the world. *)
Lemma call_view_pure ep arg request :
  exists o : outcome view_rv, forall w, call_view ep arg request w = (o, w).
Proof.
  destruct ep; unfold_views;
    try destruct arg as [set_id|];
    repeat match goal with
           | |- context [String.eqb ?a ?b] => destruct (String.eqb a b)
           end;
    eexists; intros w; reflexivity.
Qed.

(** A view looks at nothing of the request but its method. *)
Lemma call_view_ext ep arg r1 r2 w :
  method r1 = method r2 -> call_view ep arg r1 w = call_view ep arg r2 w.
Proof.
  intros Hm. destruct ep; unfold_views; rewrite ?Hm; reflexivity.
Qed.

Lemma handle_request_pure request :
  exists resp, forall w, handle_request request w = (Val resp, w).
Proof.
  unfold handle_request.
  destruct (match_request request) as [ep arg| |]; [|eexists; intros w; reflexivity..].
  destruct (call_view_pure ep arg request) as [[[|b|b s]|e] Ho];
    eexists; intros w; unfold try_except, bind; rewrite Ho; reflexivity.
Qed.

Lemma handle_request_matched request ep arg w :
  match_request request = Matched ep arg ->
  handle_request request w
  = try_except (bind (call_view ep arg request) make_response) is_Exception
               (fun _ => ret (Response 500 None)) w.
Proof. intros H. unfold handle_request. by rewrite H. Qed.

Lemma handle_request_ext r1 r2 w :
  match_request r1 = match_request r2 -> method r1 = method r2 ->
  handle_request r1 w = handle_request r2 w.
Proof.
  intros Hmatch Hm. unfold handle_request. rewrite Hmatch.
  destruct (match_request r2) as [ep arg| |]; try reflexivity.
  unfold try_except, bind. by rewrite (call_view_ext ep arg r1 r2 w Hm).
Qed.

Lemma serve_pure requests :
  exists resps, length resps = length requests
                /\ forall w, serve requests w = (Val resps, w).
Proof.
  induction requests as [|r rest (resps & Hlen & IH)].
  - exists []. split; [reflexivity|]. intros w. reflexivity.
  - destruct (handle_request_pure r) as [resp Hr].
    exists (resp :: resps). split; [simpl; by rewrite Hlen|].
    intros w. simpl. unfold bind. rewrite Hr, IH. reflexivity.
Qed.

Lemma setup_database_returns dsn w : fst (setup_database dsn w) = Val tt.
Proof.
  destruct (pg_accepts w (conninfo dsn)) eqn:Hd.
  - by rewrite setup_database_conninfo, (setup_database_reachable _ _ Hd).
  - by destruct (setup_database_unreachable dsn w Hd) as [msg ->].
Qed.

(** The route of a question set, for a path whose last part reads as the
    number [n]. *)
Lemma match_request_question_set meth id n :
  parse_int id = Some n ->
  match_rules url_map meth ("/api/admin/question-sets/" +:+ id) false
  = if existsb (String.eqb meth) ["DELETE"; "PUT"]
    then Matched Ep_manage_single_question_set (Some n)
    else MethodNotAllowed.
Proof.
  intros Hid. unfold url_map.
  lazy [match_rules rule_pattern rule_methods rule_endpoint match_path strip_prefix
        String.append String.eqb Ascii.eqb Bool.eqb].
  rewrite Hid. reflexivity.
Qed.

(** ** The HTTP surface *)

(** C1. A request on any of the twelve routes other than the root, whatever
    its query arguments, headers and payload, is answered with status 501
    and a JSON object with a [message] member, and leaves the world as it
    was. *)
Theorem non_root_routes_not_implemented (request : request) (w : world) :
  on_routes non_root_routes (method request) (path request) ->
  exists msg,
    handle_request request w
    = (Val (Response 501 (Some (JObject [("message", JString msg)]))), w)
    /\ has_key "message" (JObject [("message", JString msg)]) = true.
Proof.
  intros Hon.
  destruct (non_root_route_matched _ _ Hon) as (r & arg & Hr & Hmatch & Hp & Hm).
  rewrite (handle_request_matched request _ arg w Hmatch).
  unfold url_map in Hr. cbn [tl In] in Hr.
  unfold try_except, bind.
  repeat (destruct Hr as [<-|Hr];
          [cbn [rule_endpoint rule_methods rule_pattern existsb] in *; unfold_views|]);
    try (eexists; split; reflexivity); try (destruct Hr).
  - destruct (String.eqb (method request) "POST"); [eexists; split; reflexivity|].
    destruct (String.eqb (method request) "GET"); [eexists; split; reflexivity|discriminate].
  - cbn [match_path] in Hp.
    destruct (strip_prefix _ _); [|discriminate].
    destruct (parse_int _) as [set_id|]; [|discriminate].
    injection Hp as <-.
    destruct (String.eqb (method request) "DELETE"); [eexists; split; reflexivity|].
    destruct (String.eqb (method request) "PUT"); [eexists; split; reflexivity|discriminate].
Qed.

Lemma non_root_routes_not_implemented_witness :
  let request := Request "POST" "/api/signup" [] [("Content-Type", "application/json")]
                         "{name: Ada, phone: 01700000000}" in
  on_routes non_root_routes (method request) (path request)
  /\ exists msg, fst (handle_request request empty_db)
                 = Val (Response 501 (Some (JObject [("message", JString msg)]))).
Proof.
  intros request.
  assert (Hon : on_routes non_root_routes (method request) (path request)).
  { exists ("POST", Exact "/api/signup"). split; [by left|]. split; reflexivity. }
  split; [exact Hon|].
  destruct (non_root_routes_not_implemented request empty_db Hon) as (msg & Hmsg & _).
  exists msg. by rewrite Hmsg.
Defined.




(** C8. GET / is answered with status 200 and the welcome message as a
    JSON object. *)
Theorem index_welcome (request : request) (w : world) :
  method request = "GET" ->
  path request = "/" ->
  handle_request request w
  = (Val (Response 200
            (Some (JObject [("message", JString "Welcome to the Python MCQ Exam API!")]))),
     w).
Proof.
  intros Hm Hp. unfold handle_request, match_request. rewrite Hm, Hp. reflexivity.
Qed.

Lemma index_welcome_witness :
  let request := Request "GET" "/" [("lang", "bn")] [] "" in
  method request = "GET" /\ path request = "/"
  /\ fst (handle_request request offline)
     = Val (Response 200
              (Some (JObject [("message", JString "Welcome to the Python MCQ Exam API!")]))).
Proof.
  intros request. split; [reflexivity|]. split; [reflexivity|].
  by rewrite (index_welcome request offline eq_refl eq_refl).
Defined.

(** C9. The answer to a request is a function of its method and path only:
    two requests with the same method, and either the same path or two
    question-set paths that read as the same [set_id], get the same status
    and the same body, whatever their query arguments, headers and payloads
    and whatever the state of the world. *)
Theorem response_depends_on_route_only (r1 r2 : request) (w1 w2 : world) :
  method r1 = method r2 ->
  (path r1 = path r2
   \/ exists id1 id2 set_id,
        path r1 = "/api/admin/question-sets/" +:+ id1
        /\ path r2 = "/api/admin/question-sets/" +:+ id2
        /\ parse_int id1 = Some set_id /\ parse_int id2 = Some set_id) ->
  exists resp,
    fst (handle_request r1 w1) = Val resp /\ fst (handle_request r2 w2) = Val resp.
Proof.
  intros Hm Hpath.
  assert (Hmatch : match_request r1 = match_request r2).
  { unfold match_request. rewrite Hm.
    destruct Hpath as [->|(id1 & id2 & n & -> & -> & H1 & H2)]; [reflexivity|].
    by rewrite (match_request_question_set _ _ _ H1), (match_request_question_set _ _ _ H2). }
  destruct (handle_request_pure r2) as [resp Hresp].
  exists resp. rewrite (handle_request_ext r1 r2 w1 Hmatch Hm), !Hresp. auto.
Qed.

Lemma response_depends_on_route_only_witness :
  let r1 := Request "PUT" "/api/admin/question-sets/7" [] [] "{is_active: true}" in
  let r2 := Request "PUT" "/api/admin/question-sets/007" [("dry", "1")]
                    [("Authorization", "Bearer abc")] "" in
  method r1 = method r2
  /\ exists resp, fst (handle_request r1 empty_db) = Val resp
                  /\ fst (handle_request r2 legacy_db) = Val resp.
Proof.
  intros r1 r2. split; [reflexivity|].
  apply (response_depends_on_route_only r1 r2 empty_db legacy_db eq_refl).
  right. exists "7", "007", 7%N. repeat split; reflexivity.
Defined.

(** C10. Handling a request leaves the world, and so the database, as it
    was, and the answer does not depend on the world; a whole run of the
    application differs from the module start-up, where [setup_database]
    runs once, by nothing: the server receives no message and its catalog
    does not change while requests are served. *)
Theorem handlers_leave_database_alone :
  (forall request w, snd (handle_request request w) = w)
  /\ (forall request w w', fst (handle_request request w) = fst (handle_request request w'))
  /\ (forall requests w, snd (serve requests w) = w)
  /\ (forall requests w, snd (run_app requests w) = snd (run_module w))
  /\ (forall w, exists cfg w0,
         configure w = (Val cfg, w0)
         /\ pg_catalog w0 = pg_catalog w /\ pg_received w0 = pg_received w
         /\ run_module w = (Val cfg, snd (setup_database (DATABASE_URL cfg) w0))).
Proof.
  split; [|split; [|split; [|split]]].
  - intros request w. destruct (handle_request_pure request) as [resp Hresp]. by rewrite Hresp.
  - intros request w w'. destruct (handle_request_pure request) as [resp Hresp].
    by rewrite !Hresp.
  - intros requests w. destruct (serve_pure requests) as (resps & _ & Hresps). by rewrite Hresps.
  - intros requests w. unfold run_app, bind.
    destruct (run_module w) as [[cfg|e] w1]; [|reflexivity].
    destruct (serve_pure requests) as (resps & _ & Hresps). by rewrite Hresps.
  - intros w. eexists _, _. split; [reflexivity|]. split; [reflexivity|]. split; [reflexivity|].
    unfold run_module. erewrite bind_val by reflexivity.
    unfold bind. cbn [DATABASE_URL].
    pose proof (setup_database_returns ((environ w ∪ dotenv_file w) !! "DATABASE_URL")
                  (with_environ (fun _ => environ w ∪ dotenv_file w) w)) as Hret.
    revert Hret. cbn [environ with_environ].
    destruct (setup_database _ _) as [[[]|e] w1]; [reflexivity|discriminate].
Qed.

(** C4. When the connection cannot be established, [setup_database] prints
    the failure and the abort notice and returns without raising; nothing
    but the output changes, and the requests that follow are all answered. *)
Theorem setup_database_survives_unreachable (dsn : option string) (w : world) :
  unreachable dsn w ->
  exists msg,
    let w' := with_stdout
                (fun out => out ++ ["Database connection error: " +:+ msg;
                                    "Could not connect to the database. Aborting setup."]) w in
    setup_database dsn w = (Val tt, w')
    /\ pg_catalog w' = pg_catalog w
    /\ forall requests, exists resps,
         bind (setup_database dsn) (fun _ => serve requests) w = (Val resps, w')
         /\ length resps = length requests.
Proof.
  intros Hun. destruct (setup_database_unreachable dsn w Hun) as [msg Hmsg].
  exists msg. cbv zeta. split; [exact Hmsg|]. split; [reflexivity|].
  intros requests. destruct (serve_pure requests) as (resps & Hlen & Hresps).
  exists resps. split; [|exact Hlen].
  erewrite bind_val by exact Hmsg. apply Hresps.
Qed.

Lemma setup_database_survives_unreachable_witness :
  unreachable (Some sample_dsn) offline
  /\ fst (setup_database (Some sample_dsn) offline) = Val tt
  /\ pg_catalog (snd (setup_database (Some sample_dsn) offline)) = pg_catalog offline.
Proof.
  assert (Hun : unreachable (Some sample_dsn) offline) by reflexivity.
  split; [exact Hun|].
  destruct (setup_database_survives_unreachable (Some sample_dsn) offline Hun)
    as (msg & Hrun & Hcat & _).
  rewrite Hrun. split; [reflexivity | exact Hcat].
Defined.

(** * Further properties of the code *)

(** ** Opening the connection *)

(** X1. [get_db_connection] never raises. It returns nothing exactly when
    the connection cannot be established, and otherwise the handle of a new
    connection object, open and with no transaction, having printed nothing. *)
Theorem get_db_connection_result (dsn : option string) (w : world) :
  exists r w',
    get_db_connection dsn w = (Val r, w')
    /\ (r = None <-> unreachable dsn w)
    /\ (forall h, r = Some h ->
          connections w !! h = None
          /\ connections w' !! h = Some (Connection false TxIdle ∅)
          /\ stdout w' = stdout w /\ pg_catalog w' = pg_catalog w).
Proof.
  destruct (pg_accepts w (conninfo dsn)) eqn:Hd.
  - replace (get_db_connection dsn w) with (get_db_connection (Some (conninfo dsn)) w)
      by (by destruct dsn).
    rewrite (get_db_connection_ok _ w Hd).
    eexists _, _. split; [reflexivity|]. split.
    + split; [discriminate|]. unfold unreachable. congruence.
    + intros h [= <-]. cbn [connections stdout pg_catalog with_received with_connections].
      split; [by apply lookup_ge_None|]. split; [apply lookup_snoc|]. auto.
  - destruct (get_db_connection_fail dsn w Hd) as [msg ->].
    eexists _, _. split; [reflexivity|]. split; [tauto|]. discriminate.
Qed.

(** ** What a run of [setup_database] leaves behind *)

Lemma run_create_keeps q (cat cat' : gmap string table) t tb :
  run_create q cat = inr cat' -> cat !! t = Some tb -> cat' !! t = Some tb.
Proof.
  unfold run_create. destruct (cat !! ct_name q) as [tb0|] eqn:Hq.
  - by intros [= <-].
  - destruct (first_error _ _); [discriminate|]. intros [= <-] Ht.
    rewrite lookup_insert_ne; [exact Ht|]. intros Heq. congruence.
Qed.

Lemma run_all_keeps qs : forall (cat cat' : gmap string table) o t tb,
  run_all qs cat = (cat', o) -> cat !! t = Some tb -> cat' !! t = Some tb.
Proof.
  induction qs as [|q qs IH]; intros cat cat' o t tb Hrun Ht; simpl in Hrun.
  - by injection Hrun as <- _.
  - destruct (run_create q cat) as [err|cat1] eqn:Hq.
    + by injection Hrun as <- _.
    + eapply IH; [exact Hrun|]. by eapply run_create_keeps.
Qed.

(** X2. A run of [setup_database] loses nothing: a table that is in the
    committed catalog before the run is there afterwards with the same
    columns and the same rows, whether the run connects, succeeds or fails. *)
Theorem setup_database_keeps_tables (dsn : option string) (w : world)
    (t : string) (tb : table) :
  pg_catalog w !! t = Some tb ->
  pg_catalog (snd (setup_database dsn w)) !! t = Some tb.
Proof.
  intros Ht.
  destruct (setup_database_catalog dsn w) as [_ [->|[_ Hrun]]]; [exact Ht|].
  by eapply run_all_keeps.
Qed.

Lemma setup_database_keeps_tables_witness :
  pg_catalog legacy_db !! "question_sets" = Some legacy_question_sets
  /\ pg_catalog (snd (setup_database (Some sample_dsn) legacy_db)) !! "question_sets"
     = Some legacy_question_sets.
Proof.
  assert (H : pg_catalog legacy_db !! "question_sets" = Some legacy_question_sets)
    by reflexivity.
  split; [exact H|].
  apply (setup_database_keeps_tables (Some sample_dsn) legacy_db _ _ H).
Defined.

(** X3. [setup_database] touches no driver object that existed before the
    run, creates at most one connection and one cursor, and leaves what it
    created closed, with no transaction open. *)
Theorem setup_database_closes_what_it_opens (dsn : option string) (w : world) :
  exists conns curs,
    connections (snd (setup_database dsn w)) = connections w ++ conns
    /\ cursors (snd (setup_database dsn w)) = cursors w ++ curs
    /\ length conns <= 1 /\ length curs = length conns
    /\ Forall (fun c => conn_closed c = true /\ conn_status c = TxIdle) conns
    /\ Forall (fun k => cur_closed k = true) curs.
Proof.
  rewrite (setup_database_conninfo dsn). generalize (conninfo dsn). intros d.
  destruct (pg_accepts w d) eqn:Hd.
  - rewrite (setup_database_reachable _ _ Hd). unfold setup_result.
    destruct (run_all commands (pg_catalog w)) as [c [err|]];
      cbn [snd finished connections cursors];
      eexists _, _; (split; [reflexivity|]); (split; [reflexivity|]);
      repeat split; simpl; auto.
  - destruct (setup_database_unreachable (Some d) w Hd) as [msg ->].
    exists [], []. cbn [snd connections cursors with_stdout]. rewrite !app_nil_r.
    repeat split; simpl; auto.
Qed.

(** ** The statements on the wire *)

Lemma attempted_prefix qs : forall cat : gmap string table,
  attempted qs cat `prefix_of` qs.
Proof.
  induction qs as [|q qs IH]; intros cat; simpl; [done|].
  apply prefix_cons. destruct (run_create q cat); [apply prefix_nil | apply IH].
Qed.

Lemma attempted_all qs : forall cat cat' : gmap string table,
  run_all qs cat = (cat', None) -> attempted qs cat = qs.
Proof.
  induction qs as [|q qs IH]; intros cat cat' Hrun; simpl in *; [done|].
  destruct (run_create q cat) as [err|cat1]; [discriminate|].
  f_equal. by eapply IH.
Qed.

Lemma attempted_rejected qs : forall (cat cat' : gmap string table) err,
  run_all qs cat = (cat', Some err) ->
  exists pre q post,
    qs = pre ++ q :: post /\ attempted qs cat = pre ++ [q]
    /\ run_all pre cat = (cat', None) /\ run_create q cat' = inl err.
Proof.
  induction qs as [|q qs IH]; intros cat cat' err Hrun; simpl in *; [discriminate|].
  destruct (run_create q cat) as [err0|cat1] eqn:Hq.
  - injection Hrun as <- <-. exists [], q, qs. auto.
  - destruct (IH _ _ _ Hrun) as (pre & q' & post & -> & Hatt & Hpre & Hrej).
    exists (q :: pre), q', post. simpl. rewrite Hq, Hatt. auto.
Qed.

(** X4. On a run that connects, the server receives the start-up message,
    one BEGIN, commands in the order of the source, one COMMIT and the
    termination, and nothing else. All four commands are sent when none is
    rejected; otherwise the last one sent is the first one rejected, and
    every command before it was accepted. *)
Theorem setup_database_wire (dsn : string) (w : world) :
  pg_accepts w dsn = true ->
  exists sent,
    pg_received (snd (setup_database (Some dsn) w))
    = pg_received w ++ [PqStartup dsn; PqBegin] ++ List.map PqQuery sent
                    ++ [PqCommit; PqTerminate]
    /\ sent `prefix_of` commands
    /\ (snd (run_all commands (pg_catalog w)) = None -> sent = commands)
    /\ (forall err, snd (run_all commands (pg_catalog w)) = Some err ->
          exists pre q cat',
            sent = pre ++ [q] /\ run_all pre (pg_catalog w) = (cat', None)
            /\ run_create q cat' = inl err).
Proof.
  intros Hacc. rewrite (setup_database_reachable _ _ Hacc). unfold setup_result.
  destruct (run_all commands (pg_catalog w)) as [c [err|]] eqn:Hrun;
    cbn [snd finished pg_received].
  - exists (attempted commands (pg_catalog w)).
    destruct (attempted_rejected _ _ _ _ Hrun) as (pre & q & post & Hqs & Hatt & Hpre & Hrej).
    split; [reflexivity|]. split; [apply attempted_prefix|]. split; [discriminate|].
    intros err' [= <-]. exists pre, q, c. auto.
  - exists commands. split; [reflexivity|]. split; [done|]. split; [done|]. discriminate.
Qed.

Lemma setup_database_wire_witness :
  pg_accepts legacy_db sample_dsn = true
  /\ exists sent,
       pg_received (snd (setup_database (Some sample_dsn) legacy_db))
       = [PqStartup sample_dsn; PqBegin] ++ List.map PqQuery sent ++ [PqCommit; PqTerminate]
       /\ sent `prefix_of` commands.
Proof.
  assert (Hacc : pg_accepts legacy_db sample_dsn = true) by reflexivity.
  split; [exact Hacc|].
  destruct (setup_database_wire sample_dsn legacy_db Hacc) as (sent & Hrecv & Hpre & _).
  exists sent. split; [exact Hrecv | exact Hpre].
Defined.

(** ** When table creation succeeds *)

Lemma run_create_absent q (cat : gmap string table) :
  cat !! ct_name q = None ->
  run_create q cat
  = match first_error (check_column cat) (ct_columns q) with
    | Some err => inl err
    | None => inr (<[ct_name q := new_table q]> cat)
    end.
Proof. intros H. unfold run_create. by rewrite H. Qed.

(** The check of an INTEGER column that refers to [t(id)]. *)
Lemma check_reference_id (cat : gmap string table) (name t : string) :
  check_column cat (Column name INTEGER [REFERENCES_ON_DELETE_CASCADE t "id"]) = None
  <-> exists tb, cat !! t = Some tb /\ key_id tb = true.
Proof.
  unfold check_column. cbn [col_constraints first_error check_constraint col_type].
  destruct (cat !! t) as [tb|]; [|split; [discriminate | by intros (tb & [=] & _)]].
  assert (Hkey : key_id tb = true <->
                 match find_column "id" (tbl_columns tb) with
                 | Some target =>
                     if negb (existsb is_key_constraint (col_constraints target))
                     then Some (InvalidForeignKey t "id")
                     else if family_eqb (family INTEGER) (family (col_type target))
                          then None
                          else Some (DatatypeMismatch name)
                 | None => Some (UndefinedColumn t "id")
                 end = None).
  { unfold key_id. destruct (find_column "id" (tbl_columns tb)) as [c|]; [|split; discriminate].
    destruct (existsb is_key_constraint (col_constraints c)); cbn [negb andb family];
      [|split; discriminate].
    destruct (family_eqb FamInt (family (col_type c))); split; auto; discriminate. }
  cbn [col_name] in *.
  destruct (find_column "id" (tbl_columns tb)) as [c|].
  - destruct (negb _); [|destruct (family_eqb _ _)].
    + split; [discriminate|]. intros (tb' & [= <-] & H). by apply Hkey in H.
    + split; [|done]. intros _. exists tb. split; [done|]. by apply Hkey.
    + split; [discriminate|]. intros (tb' & [= <-] & H). by apply Hkey in H.
  - split; [discriminate|]. intros (tb' & [= <-] & H). by apply Hkey in H.
Qed.

Lemma check_questions (cat : gmap string table) :
  first_error (check_column cat) (ct_columns create_questions) = None
  <-> exists tb, cat !! "question_sets" = Some tb /\ key_id tb = true.
Proof.
  rewrite <- (check_reference_id cat "set_id" "question_sets").
  cbn [create_questions ct_columns first_error].
  change (check_column cat (Column "id" SERIAL [PRIMARY_KEY])) with (@None sql_error).
  cbv beta iota.
  destruct (check_column cat (Column "set_id" INTEGER _)); cbv beta iota;
    [split; discriminate | done].
Qed.

Lemma check_results (cat : gmap string table) :
  first_error (check_column cat) (ct_columns create_results) = None
  <-> (exists tb, cat !! "users" = Some tb /\ key_id tb = true)
      /\ (exists tb, cat !! "question_sets" = Some tb /\ key_id tb = true).
Proof.
  rewrite <- (check_reference_id cat "user_id" "users").
  rewrite <- (check_reference_id cat "set_id" "question_sets").
  cbn [create_results ct_columns first_error].
  change (check_column cat (Column "id" SERIAL [PRIMARY_KEY])) with (@None sql_error).
  cbv beta iota.
  destruct (check_column cat (Column "user_id" INTEGER _)); cbv beta iota;
    [split; [discriminate | by intros [[=] _]]|].
  destruct (check_column cat (Column "set_id" INTEGER _)); cbv beta iota;
    [split; [discriminate | by intros [_ [=]]] | done].
Qed.

(** A command without references is never rejected; it changes its own
    table only, and only when that table is missing. *)
Lemma run_create_plain q (cat : gmap string table) :
  (forall c, first_error (check_column c) (ct_columns q) = None) ->
  exists cat',
    run_create q cat = inr cat'
    /\ (forall t, t <> ct_name q -> cat' !! t = cat !! t)
    /\ (forall tb, cat !! ct_name q = Some tb -> cat' !! ct_name q = Some tb)
    /\ (cat !! ct_name q = None -> cat' !! ct_name q = Some (new_table q)).
Proof.
  intros Hplain. destruct (cat !! ct_name q) as [tb|] eqn:Hq.
  - exists cat. split; [apply run_create_exists; eauto|].
    split; [reflexivity|]. split; [by intros tb0 [= <-] | discriminate].
  - exists (<[ct_name q := new_table q]> cat).
    rewrite run_create_absent, Hplain by exact Hq.
    split; [reflexivity|]. split; [|split].
    + intros t Hne. by rewrite lookup_insert_ne.
    + discriminate.
    + intros _. apply lookup_insert_eq.
Qed.

(** After the first two commands, [users] and [question_sets] can be
    referred to exactly when no unusable table of that name was there. *)
Lemma target_after (cat cat' : gmap string table) q :
  key_id (new_table q) = true ->
  (forall tb, cat !! ct_name q = Some tb -> cat' !! ct_name q = Some tb) ->
  (cat !! ct_name q = None -> cat' !! ct_name q = Some (new_table q)) ->
  (exists tb, cat' !! ct_name q = Some tb /\ key_id tb = true)
  <-> ~ unusable cat (ct_name q).
Proof.
  intros Hnew Hkeep Hfresh. unfold unusable.
  destruct (cat !! ct_name q) as [tb|] eqn:Hq.
  - rewrite (Hkeep tb eq_refl). split.
    + intros (tb' & [= <-] & Hk) (tb'' & [= <-] & Hk'). congruence.
    + intros Hnot. exists tb. split; [reflexivity|].
      destruct (key_id tb) eqn:Hk; [reflexivity|]. exfalso. apply Hnot. eauto.
  - rewrite (Hfresh eq_refl). split.
    + intros _ (tb' & [=] & _).
    + intros _. eauto.
Qed.

Lemma run_all_rejecting (cat : gmap string table) :
  snd (run_all commands cat) = None <-> ~ rejecting cat.
Proof.
  unfold commands, run_all.
  destruct (run_create_plain create_users cat) as (c1 & -> & Hc1 & Hu1 & Hu1').
  { intros c. reflexivity. }
  destruct (run_create_plain create_question_sets c1) as (c2 & -> & Hc2 & Hs2 & Hs2').
  { intros c. reflexivity. }
  cbn [ct_name create_users create_question_sets] in *.
  assert (Hqs : (exists tb, c2 !! "question_sets" = Some tb /\ key_id tb = true)
                <-> ~ unusable cat "question_sets").
  { apply (target_after cat c2 create_question_sets); [reflexivity | |].
    - intros tb Htb. apply Hs2. by rewrite Hc1.
    - intros Hn. apply Hs2'. by rewrite Hc1. }
  assert (Hus : (exists tb, c2 !! "users" = Some tb /\ key_id tb = true)
                <-> ~ unusable cat "users").
  { rewrite Hc2 by discriminate.
    by apply (target_after cat c1 create_users). }
  assert (Hq2 : c2 !! "questions" = cat !! "questions")
    by (rewrite Hc2, Hc1 by discriminate; reflexivity).
  assert (Hr2 : c2 !! "results" = cat !! "results")
    by (rewrite Hc2, Hc1 by discriminate; reflexivity).
  unfold rejecting.
  destruct (cat !! "questions") as [tq|] eqn:Hq.
  - rewrite (run_create_exists create_questions c2) by (cbn [ct_name create_questions]; rewrite Hq2; eauto).
    destruct (cat !! "results") as [tr|] eqn:Hr.
    + rewrite (run_create_exists create_results c2)
        by (cbn [ct_name create_results]; rewrite Hr2; eauto).
      cbn [snd]. split; [|done]. intros _ [[[=] _]|[[=] _]].
    + rewrite (run_create_absent create_results c2) by exact Hr2.
      pose proof (check_results c2) as Hchk. rewrite Hus, Hqs in Hchk.
      destruct (first_error (check_column c2) (ct_columns create_results)) as [err|];
        cbn [snd].
      * split; [discriminate|]. intros Hnot. exfalso.
        assert (Hyes : ~ unusable cat "users" /\ ~ unusable cat "question_sets").
        { split; intros Hbad; apply Hnot; right; auto. }
        apply Hchk in Hyes. discriminate.
      * split; [|done]. intros _ [[[=] _]|[_ [Hbad|Hbad]]];
          destruct Hchk as [Hchk _]; destruct (Hchk eq_refl); contradiction.
  - rewrite (run_create_absent create_questions c2) by exact Hq2.
    pose proof (check_questions c2) as Hchk. rewrite Hqs in Hchk.
    destruct (first_error (check_column c2) (ct_columns create_questions)) as [err|];
      cbn [snd].
    + split; [discriminate|]. intros Hnot. exfalso.
      assert (Hyes : ~ unusable cat "question_sets") by (intros Hbad; apply Hnot; left; auto).
      apply Hchk in Hyes. discriminate.
    + set (c3 := <[ct_name create_questions := new_table create_questions]> c2).
      assert (Hgood : ~ unusable cat "question_sets") by (by apply Hchk).
      assert (Hc3 : forall t, t <> "questions" -> c3 !! t = c2 !! t)
        by (intros t Hne; subst c3; by rewrite lookup_insert_ne).
      destruct (cat !! "results") as [tr|] eqn:Hr.
      * rewrite (run_create_exists create_results c3)
          by (cbn [ct_name create_results]; rewrite Hc3, Hr2 by discriminate; eauto).
        cbn [snd]. split; [|done]. intros _ [[_ Hbad]|[[=] _]]. contradiction.
      * rewrite (run_create_absent create_results c3)
          by (cbn [ct_name create_results]; rewrite Hc3 by discriminate; exact Hr2).
        pose proof (check_results c3) as Hchk3.
        rewrite !Hc3 in Hchk3 by discriminate. rewrite Hus, Hqs in Hchk3.
        destruct (first_error (check_column c3) (ct_columns create_results)) as [err|];
          cbn [snd].
        -- split; [discriminate|]. intros Hnot. exfalso.
           assert (Hyes : ~ unusable cat "users" /\ ~ unusable cat "question_sets").
           { split; intros Hbad; apply Hnot; right; auto. }
           apply Hchk3 in Hyes. discriminate.
        -- split; [|done]. intros _ [[_ Hbad]|[_ [Hbad|Hbad]]]; try contradiction.
           destruct Hchk3 as [Hchk3 _]. destruct (Hchk3 eq_refl). contradiction.
Qed.

Lemma printed_app (w w' : world) lines :
  stdout w' = stdout w ++ lines -> printed w w' = lines.
Proof. intros H. unfold printed. rewrite H. apply drop_app_length. Qed.

(** X5. A foreign key that cannot be created stops the whole run. When
    [questions] has to be created while an existing [question_sets] table
    has no usable [id], or [results] has to be created while an existing
    [users] or [question_sets] table has none, a run that connects still
    returns, prints one error line and no success line, and commits
    nothing: the catalog is as it was, the tables that were missing are
    still missing. *)
Theorem setup_database_blocked (dsn : string) (w : world) :
  pg_accepts w dsn = true ->
  rejecting (pg_catalog w) ->
  let r := setup_database (Some dsn) w in
  fst r = Val tt
  /\ (exists msg, printed w (snd r) = ["Error during table creation: " +:+ msg])
  /\ ~ In success_line (printed w (snd r))
  /\ pg_catalog (snd r) = pg_catalog w.
Proof.
  intros Hacc Hrej r. subst r. rewrite (setup_database_reachable _ _ Hacc).
  unfold setup_result. pose proof (run_all_rejecting (pg_catalog w)) as Hiff.
  destruct (run_all commands (pg_catalog w)) as [c [err|]] eqn:Hrun; cbn [fst snd] in *.
  - split; [reflexivity|]. erewrite printed_app by reflexivity.
    split; [by eexists|]. split; [|reflexivity].
    intros [Heq|[]]. discriminate Heq.
  - exfalso. by apply Hiff.
Qed.

Lemma setup_database_blocked_witness :
  pg_accepts legacy_db sample_dsn = true
  /\ rejecting (pg_catalog legacy_db)
  /\ pg_catalog (snd (setup_database (Some sample_dsn) legacy_db)) = pg_catalog legacy_db.
Proof.
  assert (Hacc : pg_accepts legacy_db sample_dsn = true) by reflexivity.
  assert (Hrej : rejecting (pg_catalog legacy_db)).
  { left. split; [reflexivity|]. exists legacy_question_sets. split; reflexivity. }
  split; [exact Hacc|]. split; [exact Hrej|].
  apply (setup_database_blocked sample_dsn legacy_db Hacc Hrej).
Defined.

(** X6. The success line is truthful: whenever a run of [setup_database]
    prints it, the four tables are in the committed catalog afterwards. *)
Theorem success_line_means_tables (dsn : option string) (w : world) :
  In success_line (printed w (snd (setup_database dsn w))) ->
  forall t, In t four_tables ->
            is_Some (pg_catalog (snd (setup_database dsn w)) !! t).
Proof.
  rewrite (setup_database_conninfo dsn). generalize (conninfo dsn).
  intros d Hin t Ht. destruct (pg_accepts w d) eqn:Hd.
  - revert Hin. rewrite (setup_database_reachable _ _ Hd). unfold setup_result.
    destruct (run_all commands (pg_catalog w)) as [c [err|]] eqn:Hrun;
      cbn [snd finished pg_catalog]; intros Hin.
    + erewrite printed_app in Hin by reflexivity.
      destruct Hin as [Heq|[]]. discriminate Heq.
    + destruct (run_all_creates _ _ _ Hrun) as [Hall _].
      rewrite <- commands_names in Ht. apply in_map_iff in Ht as (q & <- & Hq). by apply Hall.
  - exfalso. destruct (setup_database_unreachable (Some d) w Hd) as [msg Hmsg].
    rewrite Hmsg in Hin. erewrite printed_app in Hin by reflexivity.
    destruct Hin as [Heq|[Heq|[]]]; discriminate Heq.
Qed.

Lemma success_line_means_tables_witness :
  In success_line (printed empty_db (snd (setup_database (Some sample_dsn) empty_db)))
  /\ is_Some (pg_catalog (snd (setup_database (Some sample_dsn) empty_db)) !! "results").
Proof.
  assert (Hin : In success_line
                  (printed empty_db (snd (setup_database (Some sample_dsn) empty_db)))).
  { rewrite (setup_database_reachable sample_dsn empty_db eq_refl). unfold setup_result.
    rewrite (run_all_fresh (pg_catalog empty_db)) by (intros t _; apply lookup_empty).
    cbn [snd]. erewrite printed_app by reflexivity. by left. }
  split; [exact Hin|].
  apply (success_line_means_tables (Some sample_dsn) empty_db Hin).
  unfold four_tables. simpl. auto.
Defined.

(** ** Start-up without a configured database *)

(** X7. When DATABASE_URL is set neither in the process environment nor in
    the .env file, the module still starts: the DSN is not set, and the
    set-up is the one of an empty connection string, which the client
    library resolves with its defaults. If no server answers there, the
    server receives nothing, its catalog stays as it was and the two lines
    of the failed set-up are printed; if one answers, the connection is
    opened with the empty connection string, and the run is a whole
    transaction that prints one line. *)
Theorem run_module_without_database_url (w : world) :
  (environ w ∪ dotenv_file w) !! "DATABASE_URL" = None ->
  exists cfg w',
    run_module w = (Val cfg, w')
    /\ DATABASE_URL cfg = None
    /\ w' = snd (setup_database (Some "") (snd (load_dotenv w)))
    /\ (pg_accepts w "" = false ->
        pg_received w' = pg_received w /\ pg_catalog w' = pg_catalog w
        /\ connections w' = connections w
        /\ exists msg,
             printed w w' = ["Database connection error: " +:+ msg;
                             "Could not connect to the database. Aborting setup."])
    /\ (pg_accepts w "" = true ->
        exists sent line,
          pg_received w' = pg_received w ++ [PqStartup ""; PqBegin] ++ List.map PqQuery sent
                                         ++ [PqCommit; PqTerminate]
          /\ printed w w' = [line]).
Proof.
  intros Hurl.
  set (w0 := snd (load_dotenv w)).
  assert (Hrun : run_module w
                 = (Val (Config (default default_secret_key
                                   ((environ w ∪ dotenv_file w) !! "SECRET_KEY")) None),
                    snd (setup_database (Some "") w0))).
  { unfold run_module. erewrite bind_val by reflexivity.
    cbn [DATABASE_URL environ with_environ]. rewrite Hurl.
    change (setup_database None) with (setup_database (Some "")).
    pose proof (setup_database_returns (Some "") w0) as Hret.
    unfold bind. change (with_environ _ w) with w0.
    destruct (setup_database (Some "") w0) as [[[]|e] w1]; [reflexivity|discriminate]. }
  eexists _, _. split; [exact Hrun|]. split; [reflexivity|]. split; [reflexivity|].
  assert (Hacc : pg_accepts w0 = pg_accepts w) by reflexivity.
  split.
  - intros Hd. rewrite <- Hacc in Hd.
    destruct (setup_database_unreachable (Some "") w0 Hd) as [msg ->].
    cbn [snd]. split; [reflexivity|]. split; [reflexivity|]. split; [reflexivity|].
    exists msg. by apply printed_app.
  - intros Hd. rewrite <- Hacc in Hd.
    rewrite (setup_database_reachable _ _ Hd). cbn [snd]. unfold setup_result.
    destruct (run_all commands (pg_catalog w0)) as [c [err|]];
      eexists _, _; (split; [reflexivity|]); by apply printed_app.
Qed.

Lemma run_module_without_database_url_witness :
  (environ offline ∪ dotenv_file offline) !! "DATABASE_URL" = None
  /\ exists cfg w',
       run_module offline = (Val cfg, w') /\ DATABASE_URL cfg = None
       /\ pg_catalog w' = pg_catalog offline.
Proof.
  assert (H : (environ offline ∪ dotenv_file offline) !! "DATABASE_URL" = None)
    by reflexivity.
  split; [exact H|].
  destruct (run_module_without_database_url offline H)
    as (cfg & w' & Hrun & Hcfg & _ & Hdown & _).
  destruct (Hdown eq_refl) as (_ & Hcat & _).
  eauto.
Defined.

(** ** The set id in the path and in the answer *)

Lemma parse_digits_acc d : forall acc,
  parse_digits (NilEmpty.string_of_uint d) (Npos acc) = Some (Npos (Pos.of_uint_acc d acc)).
Proof.
  induction d; intros acc; cbn [NilEmpty.string_of_uint parse_digits Pos.of_uint_acc];
    try reflexivity;
    match goal with
    | |- context [digit_value ?c] =>
        let v := eval vm_compute in (digit_value c) in
        change (digit_value c) with v
    end;
    cbv beta iota; rewrite <- IHd; f_equal; lia.
Qed.

Lemma parse_digits_zero d :
  parse_digits (NilEmpty.string_of_uint d) 0%N = Some (Pos.of_uint d).
Proof.
  induction d; cbn [NilEmpty.string_of_uint parse_digits Pos.of_uint];
    try reflexivity;
    match goal with
    | |- context [digit_value ?c] =>
        let v := eval vm_compute in (digit_value c) in
        change (digit_value c) with v
    end;
    cbv beta iota; [exact IHd | apply parse_digits_acc ..].
Qed.

Lemma parse_int_of_str (n : N) : parse_int (str n) = Some n.
Proof.
  unfold str, NilZero.string_of_uint.
  pose proof (DecimalN.Unsigned.of_to n) as Hof. unfold N.of_uint in Hof.
  destruct (N.to_uint n) as [|d|d|d|d|d|d|d|d|d|d] eqn:Hd;
    [destruct n; [discriminate Hd | by apply DecimalPos.Unsigned.to_uint_nonnil in Hd]|..];
    rewrite <- Hof; exact (parse_digits_zero _).
Qed.

(** X8. Printing a set id and reading it back through the int converter
    gives the same number: [str] produces a non-empty string of digits that
    the converter accepts and reads as the number printed. *)
Theorem parse_int_str (n : N) :
  parse_int (str n) = Some n /\ is_decimal (str n) = true.
Proof.
  pose proof (parse_int_of_str n) as H.
  split; [exact H|]. apply parse_int_is_decimal. rewrite H. eauto.
Qed.

(** The answers of the question-set view, by method. *)
Lemma question_set_reply (request : request) (w : world) (id : string) (n : N) :
  path request = question_set_prefix +:+ id ->
  parse_int id = Some n ->
  (method request = "PUT" ->
   handle_request request w
   = (Val (Response 501
             (Some (jsonify [("message", "Update set " +:+ str n +:+ " not implemented.")]))),
      w))
  /\ (method request = "DELETE" ->
      handle_request request w
      = (Val (Response 501
                (Some (jsonify [("message", "Delete set " +:+ str n +:+ " not implemented.")]))),
         w)).
Proof.
  intros Hp Hid. unfold handle_request, match_request. rewrite Hp.
  unfold question_set_prefix. rewrite (match_request_question_set _ _ _ Hid).
  split; intros Hm; rewrite Hm; cbn [existsb String.eqb Ascii.eqb Bool.eqb orb];
    unfold try_except, bind; unfold_views; rewrite Hm; reflexivity.
Qed.

(** X9. A PUT or DELETE on a question set is answered 501 with a message
    that names the set by its number in canonical decimal form, however the
    id is written in the path (leading zeros are dropped). *)
Theorem question_set_answer (request : request) (w : world) (id : string) (n : N) :
  path request = question_set_prefix +:+ id ->
  parse_int id = Some n ->
  method request = "PUT" \/ method request = "DELETE" ->
  exists verb,
    (method request = "PUT" /\ verb = "Update" \/ method request = "DELETE" /\ verb = "Delete")
    /\ handle_request request w
       = (Val (Response 501
                 (Some (JObject [("message",
                                  JString (verb +:+ " set " +:+ str n +:+ " not implemented."))]))),
          w).
Proof.
  intros Hp Hid Hm.
  destruct (question_set_reply request w id n Hp Hid) as [Hput Hdel].
  destruct Hm as [Hm|Hm].
  - exists "Update". split; [by left|]. by rewrite (Hput Hm).
  - exists "Delete". split; [by right|]. by rewrite (Hdel Hm).
Qed.

Lemma question_set_answer_witness :
  let request := Request "PUT" "/api/admin/question-sets/007" [] [] "" in
  path request = question_set_prefix +:+ "007" /\ parse_int "007" = Some 7%N
  /\ fst (handle_request request empty_db)
     = Val (Response 501
              (Some (jsonify [("message", "Update set 7 not implemented.")]))).
Proof.
  intros request. split; [reflexivity|]. split; [reflexivity|].
  destruct (question_set_answer request empty_db "007" 7%N eq_refl eq_refl
              (or_introl eq_refl)) as (verb & [[_ ->]|[Hm _]] & Hresp).
  - by rewrite Hresp.
  - discriminate Hm.
Defined.

Lemma length_append (a s : string) :
  String.length (a +:+ s) = String.length a + String.length s.
Proof. induction a as [|c a IH]; simpl; [done | by rewrite IH]. Qed.

Lemma append_cancel_r (s : string) : forall a b, a +:+ s = b +:+ s -> a = b.
Proof.
  induction a as [|c a IH]; intros [|d b] H; simpl in H.
  - reflexivity.
  - apply (f_equal String.length) in H. simpl in H. rewrite ?length_append in H. simpl in H. lia.
  - apply (f_equal String.length) in H. simpl in H. rewrite ?length_append in H. simpl in H. lia.
  - injection H as -> H. f_equal. by apply IH.
Qed.

(** X10. The answer identifies the set: two PUT (or two DELETE) requests on
    question sets get the same answer only if their paths name the same
    number. *)
Theorem question_set_answers_differ (r1 r2 : request) (w1 w2 : world)
    (id1 id2 : string) (n1 n2 : N) :
  method r1 = method r2 ->
  method r1 = "PUT" \/ method r1 = "DELETE" ->
  path r1 = question_set_prefix +:+ id1 -> parse_int id1 = Some n1 ->
  path r2 = question_set_prefix +:+ id2 -> parse_int id2 = Some n2 ->
  fst (handle_request r1 w1) = fst (handle_request r2 w2) ->
  n1 = n2.
Proof.
  intros Hm Hmeth Hp1 Hid1 Hp2 Hid2 Heq.
  destruct (question_set_reply r1 w1 id1 n1 Hp1 Hid1) as [Hput1 Hdel1].
  destruct (question_set_reply r2 w2 id2 n2 Hp2 Hid2) as [Hput2 Hdel2].
  assert (Hstr : str n1 = str n2).
  { destruct Hmeth as [H1|H1]; assert (H2 := H1); rewrite Hm in H2.
    - rewrite (Hput1 H1), (Hput2 H2) in Heq. cbn [fst jsonify List.map snd] in Heq.
      injection Heq as Heq. apply append_cancel in Heq. by apply append_cancel_r in Heq.
    - rewrite (Hdel1 H1), (Hdel2 H2) in Heq. cbn [fst jsonify List.map snd] in Heq.
      injection Heq as Heq. apply append_cancel in Heq. by apply append_cancel_r in Heq. }
  pose proof (parse_int_of_str n1) as P1. pose proof (parse_int_of_str n2) as P2.
  rewrite Hstr in P1. congruence.
Qed.

Lemma question_set_answers_differ_witness :
  let r1 := Request "DELETE" "/api/admin/question-sets/3" [] [] "" in
  let r2 := Request "DELETE" "/api/admin/question-sets/03" [] [] "" in
  fst (handle_request r1 empty_db) = fst (handle_request r2 offline) /\ 3%N = 3%N.
Proof.
  intros r1 r2.
  assert (Heq : fst (handle_request r1 empty_db) = fst (handle_request r2 offline))
    by reflexivity.
  split; [exact Heq|].
  exact (question_set_answers_differ r1 r2 empty_db offline "3" "03" 3%N 3%N
           eq_refl (or_intror eq_refl) eq_refl eq_refl eq_refl eq_refl Heq).
Defined.

(** X11. The last part of a question-set path has to be a non-empty string
    of decimal digits: for a 7-bit path whose last part is anything else
    (empty, signed, with a letter or a further slash) no registered rule
    fits, and the request ends in the framework without a view being
    called, whatever the method. *)
Theorem question_set_id_must_be_decimal (meth id : string) :
  modelled (question_set_prefix +:+ id) = true ->
  is_decimal id = false ->
  dispatch_request meth (question_set_prefix +:+ id) = NoView.
Proof.
  intros Hmod Hdec.
  assert (Hid : parse_int id = None).
  { destruct (parse_int id) as [n|] eqn:Hn; [|reflexivity].
    assert (is_decimal id = true) by (apply parse_int_is_decimal; eauto). congruence. }
  unfold dispatch_request. rewrite Hmod. apply find_rule_none. intros r Hr. left.
  unfold registered_rules, url_map in Hr. cbn [In List.map] in Hr.
  unfold question_set_prefix.
  repeat (destruct Hr as [<-|Hr];
          [lazy [static_rule route add_url_rule reg_target fit option_map rule_pattern
                 rule_endpoint match_path strip_prefix String.append String.eqb
                 Ascii.eqb Bool.eqb]; rewrite ?Hid; reflexivity|]).
  destruct Hr.
Qed.

Lemma question_set_id_must_be_decimal_witness :
  modelled "/api/admin/question-sets/-1" = true /\ is_decimal "-1" = false
  /\ dispatch_request "PUT" "/api/admin/question-sets/-1" = NoView.
Proof.
  split; [reflexivity|]. split; [reflexivity|].
  exact (question_set_id_must_be_decimal "PUT" "-1" eq_refl eq_refl).
Defined.

(** ** Views with several methods *)

(** X12. [manage_question_sets] answers POST and GET only, and
    [manage_single_question_set] DELETE and PUT only: called with any other
    method the view falls off its end and returns nothing, which makes the
    response step raise and the request end in status 500. *)
Theorem views_fall_through (request : request) (set_id : N) (w : world) :
  (fst (manage_question_sets request w) = Val RvNone
   <-> method request <> "POST" /\ method request <> "GET")
  /\ (fst (manage_single_question_set request set_id w) = Val RvNone
      <-> method request <> "DELETE" /\ method request <> "PUT")
  /\ (method request <> "POST" -> method request <> "GET" ->
      try_except (bind (call_view Ep_manage_question_sets None request) make_response)
                 is_Exception (fun _ => ret (Response 500 None)) w
      = (Val (Response 500 None), w))
  /\ (method request <> "DELETE" -> method request <> "PUT" ->
      try_except (bind (call_view Ep_manage_single_question_set (Some set_id) request)
                       make_response)
                 is_Exception (fun _ => ret (Response 500 None)) w
      = (Val (Response 500 None), w)).
Proof.
  unfold try_except, bind. unfold_views.
  split; [|split; [|split]].
  - destruct (String.eqb_spec (method request) "POST") as [->|H1];
      [split; [discriminate | by intros [? _]]|].
    destruct (String.eqb_spec (method request) "GET") as [->|H2];
      [split; [discriminate | by intros [_ ?]]|].
    split; auto.
  - destruct (String.eqb_spec (method request) "DELETE") as [->|H1];
      [split; [discriminate | by intros [? _]]|].
    destruct (String.eqb_spec (method request) "PUT") as [->|H2];
      [split; [discriminate | by intros [_ ?]]|].
    split; auto.
  - intros H1 H2.
    destruct (String.eqb_spec (method request) "POST"); [contradiction|].
    destruct (String.eqb_spec (method request) "GET"); [contradiction|]. reflexivity.
  - intros H1 H2.
    destruct (String.eqb_spec (method request) "DELETE"); [contradiction|].
    destruct (String.eqb_spec (method request) "PUT"); [contradiction|]. reflexivity.
Qed.

(** ** Completing a partial schema *)

Lemma run_create_frame q (cat cat' : gmap string table) t :
  run_create q cat = inr cat' -> t <> ct_name q -> cat' !! t = cat !! t.
Proof.
  unfold run_create. destruct (cat !! ct_name q); [by intros [= <-]|].
  destruct (first_error _ _); [discriminate|]. intros [= <-] Hne.
  by rewrite lookup_insert_ne.
Qed.

Lemma run_create_fresh q (cat cat' : gmap string table) :
  run_create q cat = inr cat' -> cat !! ct_name q = None ->
  cat' !! ct_name q = Some (new_table q).
Proof.
  intros Hrun Hq. rewrite (run_create_absent _ _ Hq) in Hrun.
  destruct (first_error _ _); [discriminate|]. injection Hrun as <-. apply lookup_insert_eq.
Qed.

Lemma run_all_frame qs : forall (cat cat' : gmap string table) o t,
  run_all qs cat = (cat', o) -> ~ In t (List.map ct_name qs) -> cat' !! t = cat !! t.
Proof.
  induction qs as [|q qs IH]; intros cat cat' o t Hrun Hnot; simpl in *.
  - by injection Hrun as <- _.
  - destruct (run_create q cat) as [err|cat1] eqn:Hq; [by injection Hrun as <- _|].
    rewrite (IH _ _ _ _ Hrun) by tauto.
    eapply run_create_frame; [exact Hq|]. intros ->. tauto.
Qed.

Lemma run_all_fresh_tables qs : forall (cat cat' : gmap string table) q,
  run_all qs cat = (cat', None) -> NoDup (List.map ct_name qs) ->
  In q qs -> cat !! ct_name q = None -> cat' !! ct_name q = Some (new_table q).
Proof.
  induction qs as [|q0 qs IH]; intros cat cat' q Hrun Hnd Hin Hq; [destruct Hin|].
  simpl in Hrun, Hnd. apply NoDup_cons in Hnd as [Hnotin Hnd].
  rewrite list_elem_of_In in Hnotin.
  destruct (run_create q0 cat) as [err|cat1] eqn:Hq0; [discriminate|].
  destruct Hin as [<-|Hin].
  - rewrite (run_all_frame _ _ _ _ _ Hrun Hnotin). by eapply run_create_fresh.
  - eapply IH; eauto.
    erewrite run_create_frame; [exact Hq | exact Hq0 |].
    intros Heq. apply Hnotin. rewrite <- Heq. by apply in_map.
Qed.

(** X14. [setup_database] completes a partial schema. On a run that
    connects and on which no command is rejected, each of the four tables
    that was missing is committed empty with the columns of its command,
    and in every run relations under other names are neither created nor
    removed. *)
Theorem setup_database_completes_schema (dsn : string) (w : world) :
  pg_accepts w dsn = true ->
  ~ rejecting (pg_catalog w) ->
  let cat' := pg_catalog (snd (setup_database (Some dsn) w)) in
  (forall q, In q commands -> pg_catalog w !! ct_name q = None ->
             cat' !! ct_name q = Some (new_table q))
  /\ (forall t, ~ In t four_tables -> cat' !! t = pg_catalog w !! t).
Proof.
  intros Hacc Hnot cat'. subst cat'.
  rewrite (setup_database_reachable _ _ Hacc). unfold setup_result.
  apply run_all_rejecting in Hnot.
  destruct (run_all commands (pg_catalog w)) as [c [err|]] eqn:Hrun; [discriminate|].
  cbn [snd finished pg_catalog]. split.
  - intros q Hq Habs. eapply run_all_fresh_tables; eauto.
    rewrite commands_names. unfold four_tables.
    repeat (apply NoDup_cons_2; [rewrite list_elem_of_In; cbn [In]; intuition discriminate|]).
    apply NoDup_nil_2.
  - intros t Ht. eapply run_all_frame; [exact Hrun|]. by rewrite commands_names.
Qed.

Lemma setup_database_completes_schema_witness :
  let w := world_on (<["users" := new_table create_users]> ∅) in
  pg_accepts w sample_dsn = true /\ ~ rejecting (pg_catalog w)
  /\ pg_catalog (snd (setup_database (Some sample_dsn) w)) !! "results"
     = Some (new_table create_results).
Proof.
  intros w.
  assert (Hacc : pg_accepts w sample_dsn = true) by reflexivity.
  assert (Hnot : ~ rejecting (pg_catalog w)).
  { intros [[_ (tb & Htb & _)]|[_ [(tb & Htb & Hk)|(tb & Htb & _)]]].
    - discriminate Htb.
    - injection Htb as <-. discriminate Hk.
    - discriminate Htb. }
  split; [exact Hacc|]. split; [exact Hnot|].
  destruct (setup_database_completes_schema sample_dsn w Hacc Hnot) as [Hnew _].
  apply (Hnew create_results); [|reflexivity].
  unfold commands. cbn [In]. auto.
Defined.
